(** * wagmi-plugin-hardhat-deploy: the selector and the merger of [src/index.ts]

    A shallow embedding of the plugin's [shouldInclude], [shouldIncludeFile]
    and [contracts], together with the parts of the JavaScript run time they
    rely on: [path.basename], [Number.parseInt], property keys, and the own
    property order of ordinary objects. *)

From Stdlib Require Import List String Ascii ZArith NArith Bool Lia.
From Stdlib Require Import DecimalString DecimalPos Sorted Permutation.
Import ListNotations.

Local Open Scope string_scope.
Local Open Scope list_scope.

(** ** Strings and arrays of strings

    A JavaScript string is modelled as a [string] whose characters are code
    units below 256. *)

(** [Array.prototype.includes] on an array of strings. *)
Definition array_includes (l : list string) (x : string) : bool :=
  existsb (String.eqb x) l.

(** ** [path.basename (path, suffix)]

    The POSIX implementation of Node: one backward scan over the path that
    finds the last path component and, at the same time, tries to match the
    suffix against its end. *)
Module Path.

Definition CHAR_FORWARD_SLASH : ascii := "/"%char.

Definition charCodeAt (s : string) (i : Z) : ascii :=
  match String.get (Z.to_nat i) s with
  | Some c => c
  | None => Ascii.zero
  end.

Definition len (s : string) : Z := Z.of_nat (String.length s).

(** [path.slice (from, to)] for [0 <= from]; an empty string when
    [to <= from]. *)
Definition slice (s : string) (from to : Z) : string :=
  substring (Z.to_nat from) (Z.to_nat (to - from)) s.

Record Scan := mkScan {
  start : Z;
  end_ : Z;
  matchedSlash : bool;
  extIdx : Z;
  firstNonSlashEnd : Z
}.

(** The body of the loop taken when a suffix is given; the boolean says
    that the loop was left by [break]. *)
Definition suffixStep (path suffix : string) (i : Z) (s : Scan) : Scan * bool :=
  let code := charCodeAt path i in
  if Ascii.eqb code CHAR_FORWARD_SLASH then
    if negb (matchedSlash s)
    then (mkScan (i + 1) (end_ s) (matchedSlash s) (extIdx s) (firstNonSlashEnd s), true)
    else (s, false)
  else
    let s1 :=
      if (firstNonSlashEnd s =? -1)%Z
      then mkScan (start s) (end_ s) false (extIdx s) (i + 1)
      else s in
    let s2 :=
      if (0 <=? extIdx s1)%Z then
        if Ascii.eqb code (charCodeAt suffix (extIdx s1)) then
          let e := (extIdx s1 - 1)%Z in
          if (e =? -1)%Z
          then mkScan (start s1) i (matchedSlash s1) e (firstNonSlashEnd s1)
          else mkScan (start s1) (end_ s1) (matchedSlash s1) e (firstNonSlashEnd s1)
        else mkScan (start s1) (firstNonSlashEnd s1) (matchedSlash s1) (-1) (firstNonSlashEnd s1)
      else s1 in
    (s2, false).

(** [for (let i = k - 1; i >= 0; --i)] *)
Fixpoint suffixLoop (path suffix : string) (k : nat) (s : Scan) : Scan :=
  match k with
  | O => s
  | S i =>
      let '(s', stop) := suffixStep path suffix (Z.of_nat i) s in
      if stop then s' else suffixLoop path suffix i s'
  end.

(** The body of the loop taken when no suffix applies. *)
Definition plainStep (path : string) (i : Z) (s : Scan) : Scan * bool :=
  if Ascii.eqb (charCodeAt path i) CHAR_FORWARD_SLASH then
    if negb (matchedSlash s)
    then (mkScan (i + 1) (end_ s) (matchedSlash s) (extIdx s) (firstNonSlashEnd s), true)
    else (s, false)
  else if (end_ s =? -1)%Z
    then (mkScan (start s) (i + 1) false (extIdx s) (firstNonSlashEnd s), false)
    else (s, false).

Fixpoint plainLoop (path : string) (k : nat) (s : Scan) : Scan :=
  match k with
  | O => s
  | S i =>
      let '(s', stop) := plainStep path (Z.of_nat i) s in
      if stop then s' else plainLoop path i s'
  end.

Definition basename (path suffix : string) : string :=
  let init := mkScan 0 (-1) true (len suffix - 1) (-1) in
  if ((0 <? len suffix) && (len suffix <=? len path))%Z%bool then
    if String.eqb suffix path then ""
    else
      let s := suffixLoop path suffix (String.length path) init in
      let e :=
        if (start s =? end_ s)%Z then firstNonSlashEnd s
        else if (end_ s =? -1)%Z then len path
        else end_ s in
      slice path (start s) e
  else
    let s := plainLoop path (String.length path) init in
    if (end_ s =? -1)%Z then "" else slice path (start s) (end_ s).

End Path.

(** ** Numbers: [Number.parseInt] and the property key of a number *)
Module Num.

(** The values [Number.parseInt] can return. The two zeros are one value
    here: the plugin only turns the number into a property key, and both
    zeros give the key ["0"]. Integers are kept exact, which is what a
    double holds up to [2^53]; beyond, the number of the code is rounded,
    which this type does not follow, so a statement about the value of a
    numeral is made for integers up to [2^53] only. *)
Inductive Number :=
| NaN
| Int (z : Z).

(** White space skipped in front of the numeral (code units below 256). *)
Definition isStrWhiteSpaceChar (c : ascii) : bool :=
  let n := nat_of_ascii c in
  existsb (Nat.eqb n) [9; 10; 11; 12; 13; 32; 160]%nat.

Fixpoint trimStart (s : string) : string :=
  match s with
  | String c r => if isStrWhiteSpaceChar c then trimStart r else s
  | EmptyString => s
  end.

(** The value of a character as a digit, for radices up to 36. *)
Definition digitValue (c : ascii) : option Z :=
  let n := Z.of_nat (nat_of_ascii c) in
  if ((48 <=? n) && (n <=? 57))%Z%bool then Some (n - 48)%Z
  else if ((97 <=? n) && (n <=? 122))%Z%bool then Some (n - 87)%Z
  else if ((65 <=? n) && (n <=? 90))%Z%bool then Some (n - 55)%Z
  else None.

(** The longest prefix made of radix-[R] digits, as digit values. *)
Fixpoint digits (R : Z) (s : string) : list Z :=
  match s with
  | String c r =>
      match digitValue c with
      | Some d => if (d <? R)%Z then d :: digits R r else []
      | None => []
      end
  | EmptyString => []
  end.

Definition mathInt (R : Z) (ds : list Z) : Z :=
  fold_left (fun acc d => acc * R + d)%Z ds 0%Z.

(** [Number.parseInt (string)], no radix given. *)
Definition parseInt (input : string) : Number :=
  let s := trimStart input in
  let '(sign, s) :=
    match s with
    | String "-" r => ((-1)%Z, r)
    | String "+" r => (1%Z, r)
    | _ => (1%Z, s)
    end in
  let '(R, s) :=
    match s with
    | String "0" (String "x" r) => (16%Z, r)
    | String "0" (String "X" r) => (16%Z, r)
    | _ => (10%Z, s)
    end in
  match digits R s with
  | [] => NaN
  | ds => Int (sign * mathInt R ds)
  end.

(** [ToString] of a number, which is what [obj[number]] uses as the key:
    the decimal numeral of an integer, exact up to [2^53] (from [10^21] the
    key of the code is in exponent form). *)
Definition toString (n : Number) : string :=
  match n with
  | NaN => "NaN"
  | Int z => NilZero.string_of_int (Z.to_int z)
  end.

End Num.

(** ** Ordinary objects used as string-keyed maps *)
Module Obj.

(** The largest array index is [2^32 - 2]. *)
Definition MAX_ARRAY_INDEX : N := 4294967294%N.

Fixpoint decimalValue (s : string) (acc : N) : option N :=
  match s with
  | EmptyString => Some acc
  | String c r =>
      let n := N.of_nat (nat_of_ascii c) in
      if ((48 <=? n) && (n <=? 57))%N%bool
      then decimalValue r (acc * 10 + (n - 48))%N
      else None
  end.

(** [arrayIndex k] is [Some n] when the key [k] is the canonical decimal
    numeral of an array index [n]. *)
Definition arrayIndex (k : string) : option N :=
  match k with
  | EmptyString => None
  | _ =>
      match decimalValue k 0%N with
      | Some n =>
          if (String.eqb (NilZero.string_of_uint (N.to_uint n)) k
              && (n <=? MAX_ARRAY_INDEX)%N)%bool
          then Some n else None
      | None => None
      end
  end.

(** The names [Object.prototype] defines; every ordinary object created by
    a literal or by [JSON.parse] inherits them. *)
Definition objectPrototypeKeys : list string :=
  [ "constructor"; "hasOwnProperty"; "isPrototypeOf"; "propertyIsEnumerable";
    "toLocaleString"; "toString"; "valueOf"; "__proto__";
    "__defineGetter__"; "__defineSetter__"; "__lookupGetter__"; "__lookupSetter__" ].

Section Props.
Context {V : Type}.

(** Own properties, in the order of their creation. *)
Definition t := list (string * V).

Definition empty : t := [].

Fixpoint getOwn (o : t) (k : string) : option V :=
  match o with
  | [] => None
  | (k', v) :: r => if String.eqb k' k then Some v else getOwn r k
  end.

(** The three outcomes of reading [o[k]]. *)
Inductive Lookup :=
| Own (v : V)
| Inherited
| Undefined.

Definition get (o : t) (k : string) : Lookup :=
  match getOwn o k with
  | Some v => Own v
  | None => if array_includes objectPrototypeKeys k then Inherited else Undefined
  end.

(** [o[k] = v] for an own or a new property: an existing property keeps
    its place, a new one is created last. *)
Fixpoint set (o : t) (k : string) (v : V) : t :=
  match o with
  | [] => [(k, v)]
  | (k', v') :: r =>
      if String.eqb k' k then (k', v) :: r else (k', v') :: set r k v
  end.

Fixpoint insertIndex (n : N) (e : string * V) (l : list (N * (string * V)))
  : list (N * (string * V)) :=
  match l with
  | [] => [(n, e)]
  | (m, e') :: r =>
      if (n <? m)%N then (n, e) :: l else (m, e') :: insertIndex n e r
  end.

(** The array-index properties, in ascending numeric order. *)
Fixpoint indexEntries (o : t) : list (N * (string * V)) :=
  match o with
  | [] => []
  | e :: r =>
      match arrayIndex (fst e) with
      | Some n => insertIndex n e (indexEntries r)
      | None => indexEntries r
      end
  end.

(** The other properties, in creation order. *)
Definition stringEntries (o : t) : list (string * V) :=
  filter (fun e => match arrayIndex (fst e) with Some _ => false | None => true end) o.

(** [Object.entries (o)] *)
Definition entries (o : t) : list (string * V) :=
  map snd (indexEntries o) ++ stringEntries o.

(** [Object.values (o)] *)
Definition values (o : t) : list V := map snd (entries o).

(** [Object.keys (o)] *)
Definition keys (o : t) : list string := map fst (entries o).

End Props.

Arguments t : clear implicits.
Arguments Lookup : clear implicits.

(** Assigning to a property of every value in place, as a loop over
    [Object.values (o)] that mutates each value does. *)
Definition onEntry {V W : Type} (f : V -> W) (e : string * V) : string * W :=
  (fst e, f (snd e)).

Definition mapValues {V W : Type} (f : V -> W) (o : t V) : t W :=
  map (onEntry f) o.

End Obj.

(** ** The plugin *)

(** Errors thrown while [contracts ()] runs: [JSON.parse] throws a
    [SyntaxError], whose message the parser writes from the text it was
    given; assigning to a property of [undefined] or of a primitive string
    (the module is strict code) throws a [TypeError], whose message is not
    modelled. Nothing catches or wraps them. *)
Inductive Error :=
| SyntaxError (message : string)
| TypeError.

Inductive Result (A : Type) :=
| Ok (a : A)
| Err (e : Error).

Arguments Ok {A} a.
Arguments Err {A} e.

Definition bind {A B : Type} (r : Result A) (f : A -> Result B) : Result B :=
  match r with
  | Ok a => f a
  | Err e => Err e
  end.

Notation "x <- r ;; k" := (bind r (fun x => k))
  (at level 61, r at next level, right associativity).

(** A loop over [l] whose body can throw. *)
Fixpoint foldM {A B : Type} (f : A -> B -> Result A) (l : list B) (acc : A) : Result A :=
  match l with
  | [] => Ok acc
  | b :: r => acc' <- f acc b ;; foldM f r acc'
  end.

Definition Address := string.

(** [unique = [...new Set (addresses)]]: a [Set] keeps the first occurrence
    of every value, in insertion order. *)
Definition setAdd (seen : list string) (x : string) : list string :=
  if array_includes seen x then seen else seen ++ [x].

Definition unique (l : list string) : list string := fold_left setAdd l [].

(** The characters of a string, each as a string: [Object.values] of a
    primitive string. *)
Fixpoint characters (s : string) : list string :=
  match s with
  | EmptyString => []
  | String c r => String c EmptyString :: characters r
  end.

Section Plugin.

(** [Abi] is opaque to the plugin. A [RegExp] is used through [test] only;
    the matchers are taken without the [g] and [y] flags, so that [test]
    is a function of the pattern and the name. *)
Context {Abi : Type} {RegExp : Type}.
Variable test : RegExp -> string -> bool.

(** [linkedData] is optional and never read. *)
Record ContractExport := {
  ce_address : Address;
  ce_abi : Abi
}.

Record Export := {
  chainId : string;
  ex_name : string;
  ex_contracts : Obj.t ContractExport
}.

Record HardhatDeployOptions := {
  directory : string;
  includes : option (list RegExp);
  excludes : option (list RegExp);
  includeNetworks : option (list string);
  excludeNetworks : option (list string);
  namePrefix : option string;
  nameSuffix : option string
}.

(** [ContractConfig] of wagmi: the address is one address or a record of
    addresses by chain id. *)
Inductive AddressField :=
| Single (a : Address)
| PerChain (m : Obj.t Address).

Record ContractConfig := {
  name : string;
  abi : Abi;
  address : AddressField
}.

Definition shouldInclude (name : string) (config : HardhatDeployOptions) : bool :=
  let excluded :=
    match excludes config with
    | Some l => existsb (fun exclude => test exclude name) l
    | None => false
    end in
  if excluded then false
  else
    match includes config with
    | Some l => existsb (fun include => test include name) l
    | None => true
    end.

Definition networkName (fileName : string) : string :=
  Path.basename fileName ".json".

Definition shouldIncludeFile (fileName : string) (config : HardhatDeployOptions) : bool :=
  let networkName := networkName fileName in
  let notIncluded :=
    match includeNetworks config with
    | Some l => (0 <? List.length l)%nat && negb (array_includes l networkName)
    | None => false
    end in
  if notIncluded then false
  else
    let isExcluded :=
      match excludeNetworks config with
      | Some l => (0 <? List.length l)%nat && array_includes l networkName
      | None => false
      end in
    if isExcluded then false else true.

(** What [JSON.parse (fs.readFileSync (filename).toString ())] gives for a
    file: it throws a [SyntaxError] with the message it has for that text,
    or it returns a document, which the cast [as Export] takes to be of the
    shape [Export]. *)
Inductive FileContent :=
| Malformed (message : string)
| Document (deployment : Export).

(** The entries of [config.directory] in the order [fs.readdirSync]
    returns them, each a readable file, with the outcome of parsing it. *)
Definition Directory := list (string * FileContent).

Definition withDefault (o : option string) : string :=
  match o with
  | Some s => s
  | None => ""
  end.

Definition contractName (config : HardhatDeployOptions) (name : string) : string :=
  (withDefault (namePrefix config) ++ name ++ withDefault (nameSuffix config))%string.

(** The body of the loop over [Object.entries (deployment.contracts)]. *)
Definition mergeContract (config : HardhatDeployOptions) (chainId : Num.Number)
    (acc : Obj.t ContractConfig) (entry : string * ContractExport)
    : Result (Obj.t ContractConfig) :=
  let '(rawName, ce) := entry in
  if shouldInclude rawName config then
    let contractName := contractName config rawName in
    match Obj.get acc contractName with
    | Obj.Own contract =>
        match address contract with
        | PerChain addresses =>
            let addresses := Obj.set addresses (Num.toString chainId) (ce_address ce) in
            Ok (Obj.set acc contractName
                  {| name := name contract; abi := abi contract;
                     address := PerChain addresses |})
        | Single _ => Err TypeError
        end
    | Obj.Inherited => Err TypeError
    | Obj.Undefined =>
        let addresses := Obj.set Obj.empty (Num.toString chainId) (ce_address ce) in
        Ok (Obj.set acc contractName
              {| name := contractName; abi := ce_abi ce;
                 address := PerChain addresses |})
    end
  else Ok acc.

(** The reducer of [files.reduce]. *)
Definition mergeFile (config : HardhatDeployOptions)
    (acc : Obj.t ContractConfig) (file : string * FileContent)
    : Result (Obj.t ContractConfig) :=
  match snd file with
  | Malformed message => Err (SyntaxError message)
  | Document deployment =>
      let chainId := Num.parseInt (chainId deployment) in
      foldM (mergeContract config chainId)
            (Obj.entries (ex_contracts deployment)) acc
  end.

Definition selectedFiles (config : HardhatDeployOptions) (dir : Directory)
    : list (string * FileContent) :=
  filter (fun file => shouldIncludeFile (fst file) config) dir.

Definition mergeFiles (config : HardhatDeployOptions) (dir : Directory)
    : Result (Obj.t ContractConfig) :=
  foldM (mergeFile config) (selectedFiles config dir) Obj.empty.

(** The body of the simplification loop, for one contract. *)
Definition simplify (contract : ContractConfig) : ContractConfig :=
  let addresses :=
    match address contract with
    | PerChain m => Obj.values m
    | Single a => characters a
    end in
  match unique addresses with
  | [a] => {| name := name contract; abi := abi contract; address := Single a |}
  | _ => contract
  end.

(** [plugin (config).contracts ()] *)
Definition contracts (config : HardhatDeployOptions) (dir : Directory)
    : Result (list ContractConfig) :=
  acc <- mergeFiles config dir ;;
  Ok (Obj.values (Obj.mapValues simplify acc)).

End Plugin.

Arguments ContractExport : clear implicits.
Arguments Export : clear implicits.
Arguments HardhatDeployOptions : clear implicits.
Arguments ContractConfig : clear implicits.
Arguments FileContent : clear implicits.
Arguments Directory : clear implicits.
Arguments mergeContract : simpl never.
Arguments mergeFile : simpl never.

(** ** Vocabulary of the statements *)

Section Vocabulary.

Context {Abi : Type} {RegExp : Type}.
Variable test : RegExp -> string -> bool.

(** Some pattern of [l] matches the name. *)
Definition someMatch (l : list RegExp) (n : string) : Prop :=
  exists p, In p l /\ test p n = true.

(** Some configured exclude pattern matches the name. *)
Definition excludeMatch (n : string) (config : HardhatDeployOptions RegExp) : Prop :=
  exists l, excludes config = Some l /\ someMatch l n.

(** A list option that is absent or empty. *)
Definition absentOrEmpty {A : Type} (o : option (list A)) : Prop :=
  o = None \/ o = Some [].

(** The transformed names of the contracts of one file that pass the
    name filter, in the order the loop meets them. *)
Definition fileKeys (config : HardhatDeployOptions RegExp)
    (file : string * FileContent Abi) : list string :=
  match snd file with
  | Malformed _ => []
  | Document deployment =>
      map (contractName config)
          (filter (fun n => shouldInclude test n config)
                  (Obj.keys (ex_contracts deployment)))
  end.

(** The transformed names in the order they are met while the selected
    files are scanned in directory order. *)
Definition encountered (config : HardhatDeployOptions RegExp)
    (dir : Directory Abi) : list string :=
  flat_map (fileKeys config) (selectedFiles config dir).

(** A run of the loop body over records, each with the chain id of the
    file it comes from. *)
Definition mergeRecords (config : HardhatDeployOptions RegExp)
    (records : list (Num.Number * (string * ContractExport Abi)))
    (acc : Obj.t (ContractConfig Abi)) : Result (Obj.t (ContractConfig Abi)) :=
  foldM (fun acc r => mergeContract test config (fst r) acc (snd r)) records acc.

(** The records of a file, in loop order. *)
Definition fileRecords (file : string * FileContent Abi)
    : list (Num.Number * (string * ContractExport Abi)) :=
  match snd file with
  | Malformed _ => []
  | Document deployment =>
      map (pair (Num.parseInt (chainId deployment)))
          (Obj.entries (ex_contracts deployment))
  end.

(** What the fold keeps true of the accumulator: an entry is stored
    under its own name and holds a record of addresses. *)
Definition wellFormed (acc : Obj.t (ContractConfig Abi)) : Prop :=
  Forall (fun e => name (snd e) = fst e /\ exists m, address (snd e) = PerChain m) acc.

End Vocabulary.

(** The file parses. *)
Definition parses {Abi : Type} (file : string * FileContent Abi) : Prop :=
  match snd file with
  | Document _ => True
  | Malformed _ => False
  end.

(** The document [d] with the string [s] as its [chainId]. *)
Definition withChainId {Abi : Type} (s : string) (d : Export Abi) : Export Abi :=
  {| chainId := s; ex_name := ex_name d; ex_contracts := ex_contracts d |}.

(** Every recorded chain of [m] has the address [a], and there is one. *)
Definition uniform (m : Obj.t Address) (a : Address) : Prop :=
  (exists k, In (k, a) m) /\ forall k b, In (k, b) m -> b = a.

(** Two recorded chains of [m] have different addresses. *)
Definition diverse (m : Obj.t Address) : Prop :=
  exists k1 a1 k2 a2, In (k1, a1) m /\ In (k2, a2) m /\ a1 <> a2.

(** The order in which an object lists the keys of properties created in
    the order [created]: the array indices first, in ascending numeric
    order, then the other keys in creation order. *)
Definition ownKeyOrder (created : list string) : list string :=
  Obj.keys (map (fun k => (k, tt)) created).

(** The elements of [l] in the order of their first occurrence. *)
Fixpoint firstOccurrences (l : list string) : list string :=
  match l with
  | [] => []
  | x :: r => x :: filter (fun y => negb (String.eqb y x)) (firstOccurrences r)
  end.

(** A name without a path separator, as [fs.readdirSync] returns them. *)
Definition noSlash (s : string) : Prop :=
  forall i, String.get i s <> Some Path.CHAR_FORWARD_SLASH.

Fixpoint lastDot (s : string) (i : nat) (found : option nat) : option nat :=
  match s with
  | EmptyString => found
  | String c r => lastDot r (S i) (if Ascii.eqb c "."%char then Some i else found)
  end.

(** Following the words of the specification: the base name of the file
    without its extension, the extension being the last dot of the base
    name, when it is not its first character, and what follows it. *)
Definition stripExtension (fileName : string) : string :=
  let base := Path.basename fileName "" in
  match lastDot base 0 None with
  | Some (S i) => substring 0 (S i) base
  | _ => base
  end.

(** ** Sample data *)

Module Sample.

(** A matcher for the samples: the pattern [lit] behaves as [/^lit/]. *)
Definition startsWith (lit name : string) : bool := String.prefix lit name.

Definition options (inc exc : option (list string)) (incNet excNet : option (list string))
    : HardhatDeployOptions string :=
  {| directory := "deployments";
     includes := inc; excludes := exc;
     includeNetworks := incNet; excludeNetworks := excNet;
     namePrefix := None; nameSuffix := None |}.

Definition noFilter := options None None None None.
Definition emptyIncludes := options (Some []) None None None.
Definition tokensNoMocks := options (Some ["Token"]) (Some ["TokenMock"]) None None.
Definition emptyNetworks := options None None (Some []) None.
Definition onlyMainnet := options None None (Some ["mainnet"]) None.

Definition deployed (a : Address) (abi : string) : ContractExport string :=
  {| ce_address := a; ce_abi := abi |}.

Definition file (f chain : string) (cs : Obj.t (ContractExport string))
    : string * FileContent string :=
  (f, Document {| chainId := chain; ex_name := f; ex_contracts := cs |}).

(** [Foo] has one address on both chains, [Bar] has two. *)
Definition twoChains : Directory string :=
  [ file "mainnet.json" "1" [("Foo", deployed "0xAA" "fooAbi"); ("Bar", deployed "0xAA" "barAbi")];
    file "polygon.json" "137" [("Foo", deployed "0xAA" "fooAbi2"); ("Bar", deployed "0xBB" "barAbi2")] ].

Definition twoChainsMerged : Obj.t (ContractConfig string) :=
  [ ("Foo", {| name := "Foo"; abi := "fooAbi";
               address := PerChain [("1", "0xAA"); ("137", "0xAA")] |});
    ("Bar", {| name := "Bar"; abi := "barAbi";
               address := PerChain [("1", "0xAA"); ("137", "0xBB")] |}) ].

Definition twoChainsRegistry : list (ContractConfig string) :=
  [ {| name := "Foo"; abi := "fooAbi"; address := Single "0xAA" |};
    {| name := "Bar"; abi := "barAbi";
       address := PerChain [("1", "0xAA"); ("137", "0xBB")] |} ].

(** The second file is not JSON. *)
Definition oneBroken : Directory string :=
  [ file "mainnet.json" "1" [("Foo", deployed "0xAA" "fooAbi")];
    ("broken.json", Malformed "Unexpected end of JSON input") ].

(** The [chainId] of the file is not a numeral. *)
Definition badChainId : Directory string :=
  [ file "localhost.json" "abc" [("Foo", deployed "0xAA" "fooAbi")] ].

(** Contracts named by numerals, met in the order ["2"], ["1"]. *)
Definition numeralNames : Directory string :=
  [ file "a.json" "1" [("2", deployed "0xAA" "abi2")];
    file "b.json" "1" [("1", deployed "0xBB" "abi1")] ].

Definition numeralNamesRegistry : list (ContractConfig string) :=
  [ {| name := "1"; abi := "abi1"; address := Single "0xBB" |};
    {| name := "2"; abi := "abi2"; address := Single "0xAA" |} ].



End Sample.

(** ** Vocabulary of the further statements *)

Section Coverage.

Context {Abi : Type} {RegExp : Type}.
Variable test : RegExp -> string -> bool.

(** The records of the selected files, in the order the loop bodies run. *)
Definition selectedRecords (config : HardhatDeployOptions RegExp) (dir : Directory Abi)
    : list (Num.Number * (string * ContractExport Abi)) :=
  flat_map fileRecords (selectedFiles config dir).

(** The record [r] passes the name filter and is merged under [key]. *)
Definition mergedUnder (config : HardhatDeployOptions RegExp) (key : string)
    (r : Num.Number * (string * ContractExport Abi)) : Prop :=
  shouldInclude test (fst (snd r)) config = true /\
  contractName config (fst (snd r)) = key.

(** The record [r] writes the address of the chain key [ck] in the entry
    [key]. *)
Definition writes (config : HardhatDeployOptions RegExp) (key ck : string)
    (r : Num.Number * (string * ContractExport Abi)) : Prop :=
  mergedUnder config key r /\ Num.toString (fst r) = ck.

(** A selected file that parses holds a contract that passes the name
    filter, is merged under [key], and has the address [a] on the chain key
    [ck] of the file. *)
Definition deployedAt (config : HardhatDeployOptions RegExp) (dir : Directory Abi)
    (key ck : string) (a : Address) : Prop :=
  exists f d rawName ce,
    In (f, Document d) dir /\
    shouldIncludeFile f config = true /\
    In (rawName, ce) (ex_contracts d) /\
    shouldInclude test rawName config = true /\
    contractName config rawName = key /\
    Num.toString (Num.parseInt (chainId d)) = ck /\
    ce_address ce = a.

(** Every record of addresses of the accumulator holds a chain, and holds
    each chain key once. *)
Definition populated (acc : Obj.t (ContractConfig Abi)) : Prop :=
  Forall (fun e => forall m, address (snd e) = PerChain m ->
                     m <> [] /\ NoDup (map fst m)) acc.

(** No own key of the accumulator is a name of [Object.prototype]. *)
Definition noInherited (acc : Obj.t (ContractConfig Abi)) : Prop :=
  forall k, In k (map fst acc) ->
    array_includes Obj.objectPrototypeKeys k = false.

(** Two optional lists of patterns with the same patterns, in any order
    and any number of times. *)
Definition samePatterns (o1 o2 : option (list RegExp)) : Prop :=
  match o1, o2 with
  | None, None => True
  | Some l1, Some l2 => forall p, In p l1 <-> In p l2
  | _, _ => False
  end.

End Coverage.

(** A name without a dot. *)
Definition noDot (s : string) : Prop :=
  forall i, String.get i s <> Some "."%char.

(** ** The first version of the file selection

    The earlier [index.ts] names the network lists [include_networks] and
    [exclude_networks], has no name prefix or suffix, and takes as network
    name the file name up to its first dot. *)
Module Legacy.

Record HardhatDeployOptions {RegExp : Type} := {
  directory : string;
  includes : option (list RegExp);
  excludes : option (list RegExp);
  include_networks : option (list string);
  exclude_networks : option (list string)
}.

Arguments HardhatDeployOptions : clear implicits.

(** [fileName.split (".")[0]] *)
Fixpoint firstPart (s : string) : string :=
  match s with
  | EmptyString => EmptyString
  | String c r => if Ascii.eqb c "."%char then EmptyString else String c (firstPart r)
  end.

Definition shouldIncludeFile {RegExp : Type} (fileName : string)
    (config : HardhatDeployOptions RegExp) : bool :=
  let networkName := firstPart fileName in
  let notIncluded :=
    match include_networks config with
    | Some l => (0 <? List.length l)%nat && negb (array_includes l networkName)
    | None => false
    end in
  if notIncluded then false
  else
    let isExcluded :=
      match exclude_networks config with
      | Some l => (0 <? List.length l)%nat && array_includes l networkName
      | None => false
      end in
    if isExcluded then false else true.

End Legacy.

(** ** Further sample data *)

Module Cases.

Definition bothNetworks : HardhatDeployOptions string :=
  Sample.options None None (Some ["mainnet"; "polygon"]) (Some ["polygon"]).

Definition tokensReordered : HardhatDeployOptions string :=
  Sample.options (Some ["Tok"; "Token"; "Tok"]) (Some ["TokenMock"]) None None.

Definition tokens : HardhatDeployOptions string :=
  Sample.options (Some ["Token"; "Tok"]) (Some ["TokenMock"; "TokenMock"]) None None.

Definition prefixed : HardhatDeployOptions string :=
  {| directory := "deployments";
     includes := None; excludes := None;
     includeNetworks := None; excludeNetworks := None;
     namePrefix := Some "My"; nameSuffix := Some "Abi" |}.

Definition legacyMainnet : Legacy.HardhatDeployOptions string :=
  {| Legacy.directory := "deployments";
     Legacy.includes := None; Legacy.excludes := None;
     Legacy.include_networks := Some ["mainnet"];
     Legacy.exclude_networks := None |}.

(** A contract named as a method of [Object.prototype]. *)
Definition inheritedName : Directory string :=
  [ Sample.file "mainnet.json" "1" [("toString", Sample.deployed "0xAA" "abi")] ].

(** The file of another network does not parse. *)
Definition brokenElsewhere : Directory string :=
  [ Sample.file "mainnet.json" "1" [("Foo", Sample.deployed "0xAA" "fooAbi")];
    ("polygon.json", Malformed "Unexpected end of JSON input") ].

End Cases.

(** ** The selector *)

Section Selector.

Context {RegExp : Type}.
Variable test : RegExp -> string -> bool.
Implicit Types (n f : string) (config : HardhatDeployOptions RegExp).

Lemma existsb_someMatch (l : list RegExp) n :
  existsb (fun p => test p n) l = true <-> someMatch test l n.
Proof.
  unfold someMatch. rewrite existsb_exists. reflexivity.
Qed.

Lemma excluded_false n config :
  ~ excludeMatch test n config ->
  match excludes config with
  | Some l => existsb (fun exclude => test exclude n) l
  | None => false
  end = false.
Proof.
  intros Hno. destruct (excludes config) as [l|] eqn:E; [|reflexivity].
  apply not_true_is_false. intros H. apply Hno.
  exists l. split; [assumption|]. now apply existsb_someMatch.
Qed.

(** C5: a name matched by one of the configured exclude patterns is
    rejected, whatever the includes list holds. *)
Theorem shouldInclude_exclude_wins n config :
  excludeMatch test n config -> shouldInclude test n config = false.
Proof.
  intros [l [E H]]. unfold shouldInclude. rewrite E.
  apply existsb_someMatch in H. now rewrite H.
Qed.

(** C6: without an exclude match and with a non-empty includes list, a
    name is accepted exactly when one of the include patterns matches. *)
Theorem shouldInclude_includes_iff n config (I : list RegExp) :
  ~ excludeMatch test n config ->
  includes config = Some I ->
  I <> [] ->
  (shouldInclude test n config = true <-> someMatch test I n).
Proof.
  intros Hno HI _. unfold shouldInclude.
  rewrite (excluded_false _ _ Hno), HI. apply existsb_someMatch.
Qed.

(** C1 (amended): without an exclude match, an absent includes list
    accepts every name, and an includes list that is present but empty
    accepts none. *)
Theorem shouldInclude_no_includes n config :
  ~ excludeMatch test n config ->
  (includes config = None -> shouldInclude test n config = true) /\
  (includes config = Some [] -> shouldInclude test n config = false).
Proof.
  intros Hno. unfold shouldInclude. rewrite (excluded_false _ _ Hno).
  split; intros ->; reflexivity.
Qed.

(** C9: with both network lists absent or empty, every file is selected. *)
Theorem shouldIncludeFile_default f config :
  absentOrEmpty (includeNetworks config) ->
  absentOrEmpty (excludeNetworks config) ->
  shouldIncludeFile f config = true.
Proof.
  unfold shouldIncludeFile.
  intros [-> | ->] [-> | ->]; reflexivity.
Qed.

Lemma array_includes_In (l : list string) (x : string) :
  array_includes l x = true <-> In x l.
Proof.
  unfold array_includes. rewrite existsb_exists. split.
  - intros [y [Hy E]]. apply String.eqb_eq in E. now subst.
  - intros H. exists x. split; [assumption | apply String.eqb_refl].
Qed.

Lemma nonempty_length {A : Type} (l : list A) :
  (0 <? List.length l)%nat = true <-> l <> [].
Proof.
  destruct l; simpl; split; intros H; try discriminate; try reflexivity.
  contradiction.
Qed.

Lemma lacks_iff (o : option (list string)) (x : string) :
  match o with
  | Some l => (0 <? List.length l)%nat && negb (array_includes l x)
  | None => false
  end = true <->
  exists l, o = Some l /\ l <> [] /\ ~ In x l.
Proof.
  destruct o as [l|]; [|split; [discriminate | intros [l [E _]]; discriminate]].
  rewrite andb_true_iff, negb_true_iff, nonempty_length, <- not_true_iff_false,
    array_includes_In.
  split.
  - intros [H1 H2]. now exists l.
  - intros [l' [E H]]. now injection E as <-.
Qed.

Lemma holds_iff (o : option (list string)) (x : string) :
  match o with
  | Some l => (0 <? List.length l)%nat && array_includes l x
  | None => false
  end = true <->
  exists l, o = Some l /\ l <> [] /\ In x l.
Proof.
  destruct o as [l|]; [|split; [discriminate | intros [l [E _]]; discriminate]].
  rewrite andb_true_iff, nonempty_length, array_includes_In.
  split.
  - intros [H1 H2]. now exists l.
  - intros [l' [E H]]. now injection E as <-.
Qed.

(** The file is rejected exactly when a non-empty [includeNetworks] lacks
    its network name or a non-empty [excludeNetworks] holds it. *)
Lemma shouldIncludeFile_false_iff f config :
  shouldIncludeFile f config = false <->
  (exists l, includeNetworks config = Some l /\ l <> [] /\ ~ In (networkName f) l) \/
  (exists l, excludeNetworks config = Some l /\ l <> [] /\ In (networkName f) l).
Proof.
  rewrite <- lacks_iff, <- holds_iff. unfold shouldIncludeFile.
  destruct (match includeNetworks config with Some _ => _ | None => _ end);
    destruct (match excludeNetworks config with Some _ => _ | None => _ end);
    intuition discriminate.
Qed.

End Selector.

(** ** Facts about [path.basename] on directory entries *)

Section Basename.

Import Path.

Lemma charCodeAt_app_l (n suf : string) (i : nat) :
  (i < String.length n)%nat ->
  charCodeAt (n ++ suf) (Z.of_nat i) = charCodeAt n (Z.of_nat i).
Proof.
  intros H. unfold charCodeAt. rewrite Nat2Z.id.
  now rewrite <- append_correct1.
Qed.

Lemma charCodeAt_app_r (n suf : string) (t : nat) :
  charCodeAt (n ++ suf) (Z.of_nat (t + String.length n)) = charCodeAt suf (Z.of_nat t).
Proof.
  unfold charCodeAt. rewrite !Nat2Z.id. now rewrite <- append_correct2.
Qed.

Lemma noSlash_charCodeAt (s : string) (i : nat) :
  noSlash s ->
  Ascii.eqb (charCodeAt s (Z.of_nat i)) CHAR_FORWARD_SLASH = false.
Proof.
  intros H. unfold charCodeAt. rewrite Nat2Z.id.
  destruct (String.get i s) as [c|] eqn:E; [|reflexivity].
  apply Ascii.eqb_neq. intros ->. exact (H i E).
Qed.

Lemma noSlash_app (n suf : string) :
  noSlash n -> noSlash suf -> noSlash (n ++ suf).
Proof.
  intros Hn Hs i. destruct (Nat.lt_ge_cases i (String.length n)) as [Hlt | Hge].
  - rewrite <- append_correct1 by assumption. apply Hn.
  - replace i with ((i - String.length n) + String.length n)%nat by lia.
    rewrite <- append_correct2. apply Hs.
Qed.

Lemma noSlash_json : noSlash ".json".
Proof.
  intros i. do 6 (destruct i as [|i]; [discriminate|]). discriminate.
Qed.

Lemma length_app (n suf : string) :
  String.length (n ++ suf) = (String.length n + String.length suf)%nat.
Proof.
  induction n as [|c n IH]; simpl; [reflexivity | now rewrite IH].
Qed.

Lemma substring_app_l (n suf : string) :
  substring 0 (String.length n) (n ++ suf) = n.
Proof.
  induction n as [|c n IH]; simpl.
  - destruct suf; reflexivity.
  - now rewrite IH.
Qed.

(** Once the suffix is decided and a component character was seen, the
    scan of a name without separators changes nothing more. *)
Lemma suffixLoop_settled (p suf : string) (k : nat) (s : Scan) :
  noSlash p ->
  firstNonSlashEnd s <> (-1)%Z ->
  (extIdx s < 0)%Z ->
  suffixLoop p suf k s = s.
Proof.
  intros Hp Hf He. induction k as [|k IH]; simpl; [reflexivity|].
  unfold suffixStep. rewrite (noSlash_charCodeAt p k Hp).
  apply Z.eqb_neq in Hf. rewrite Hf.
  apply Z.leb_gt in He. rewrite He. exact IH.
Qed.

(** While the last characters of [n ++ suf] are compared with [suf], with
    [d] characters of [suf] still to match. *)
Lemma suffixLoop_matching (n suf : string) (d : nat) :
  noSlash (n ++ suf) ->
  forall s : Scan,
  (1 <= d <= String.length suf)%nat ->
  start s = 0%Z -> end_ s = (-1)%Z -> extIdx s = (Z.of_nat d - 1)%Z ->
  (firstNonSlashEnd s = (-1)%Z /\ d = String.length suf \/
   firstNonSlashEnd s = len (n ++ suf) /\ matchedSlash s = false) ->
  suffixLoop (n ++ suf) suf (d + String.length n) s
  = mkScan 0 (len n) false (-1) (len (n ++ suf)).
Proof.
  intros Hp. induction d as [|d IH]; intros s Hd Hst Hen Hex Hf; [lia|].
  destruct s as [st en ms ei fn].
  cbn [start end_ extIdx firstNonSlashEnd matchedSlash] in Hst, Hen, Hex, Hf.
  subst st en.
  assert (Hei : ei = Z.of_nat d) by lia. clear Hex.
  change (S d + String.length n)%nat with (S (d + String.length n)).
  cbn [suffixLoop]. unfold suffixStep.
  rewrite (noSlash_charCodeAt _ (d + String.length n) Hp).
  cbn [firstNonSlashEnd extIdx start end_ matchedSlash].
  assert (Hlen : len (n ++ suf) = (Z.of_nat (String.length n) + Z.of_nat (String.length suf))%Z).
  { unfold len. rewrite length_app. lia. }
  assert (Hfn : (if (fn =? -1)%Z
                 then mkScan 0 (-1) false ei (Z.of_nat (d + String.length n) + 1)
                 else mkScan 0 (-1) ms ei fn)
                = mkScan 0 (-1) false ei (len (n ++ suf))).
  { destruct Hf as [[-> Hds] | [-> ->]].
    - simpl Z.eqb. cbv iota. f_equal. lia.
    - destruct (len (n ++ suf) =? -1)%Z eqn:E; [|reflexivity].
      apply Z.eqb_eq in E. unfold len in E. lia. }
  rewrite Hfn. cbn [firstNonSlashEnd extIdx start end_ matchedSlash].
  subst ei.
  assert (H0 : (0 <=? Z.of_nat d)%Z = true) by (apply Z.leb_le; lia).
  rewrite H0, charCodeAt_app_r, Ascii.eqb_refl.
  destruct d as [|d].
  - simpl Z.eqb. cbv iota. simpl Nat.add.
    rewrite (suffixLoop_settled _ _ _ _ Hp).
    + reflexivity.
    + cbn [firstNonSlashEnd]. unfold len. lia.
    + cbn [extIdx]. lia.
  - assert (H1 : (Z.of_nat (S d) - 1 =? -1)%Z = false) by (apply Z.eqb_neq; lia).
    rewrite H1.
    apply IH; cbn [start end_ extIdx firstNonSlashEnd matchedSlash];
      try lia; try reflexivity.
Qed.

(** A directory entry [n ++ suf] loses the suffix. *)
Lemma basename_strips_suffix (n suf : string) :
  noSlash (n ++ suf) -> suf <> "" ->
  basename (n ++ suf) suf = n.
Proof.
  intros Hp Hs. unfold basename.
  assert (Hls : (0 < String.length suf)%nat).
  { destruct suf; [contradiction | simpl; lia]. }
  assert (Hc : ((0 <? len suf) && (len suf <=? len (n ++ suf)))%Z%bool = true).
  { unfold len. rewrite length_app. apply andb_true_iff. split.
    - apply Z.ltb_lt. lia.
    - apply Z.leb_le. lia. }
  rewrite Hc. destruct n as [|c n].
  - simpl. now rewrite String.eqb_refl.
  - assert (Hne : String.eqb suf (String c n ++ suf) = false).
    { apply String.eqb_neq. intros E. apply (f_equal String.length) in E.
      rewrite length_app in E. simpl in E. lia. }
    rewrite Hne.
    replace (String.length (String c n ++ suf))
      with (String.length suf + String.length (String c n))%nat
      by (rewrite length_app; lia).
    rewrite (suffixLoop_matching (String c n) suf (String.length suf) Hp);
      try reflexivity; try lia; [|left; split; reflexivity].
    cbn [start end_ firstNonSlashEnd].
    assert (H1 : (0 =? len (String c n))%Z = false).
    { apply Z.eqb_neq. unfold len. simpl String.length. lia. }
    assert (H2 : (len (String c n) =? -1)%Z = false).
    { apply Z.eqb_neq. unfold len. lia. }
    rewrite H1, H2. unfold slice, len.
    rewrite Z.sub_0_r, Nat2Z.id. simpl Z.to_nat. apply substring_app_l.
Qed.

Lemma substring_full (p : string) : substring 0 (String.length p) p = p.
Proof.
  induction p as [|c p IH]; simpl; [reflexivity | now rewrite IH].
Qed.

Lemma length_substring_0 (r : nat) (p : string) :
  (r <= String.length p)%nat -> String.length (substring 0 r p) = r.
Proof.
  revert p. induction r as [|r IH]; intros p H.
  - destruct p; reflexivity.
  - destruct p as [|c p]; simpl in *; [lia|]. rewrite IH; [reflexivity | lia].
Qed.

Lemma get_Some_lt (p : string) (i : nat) :
  (i < String.length p)%nat -> exists c, String.get i p = Some c.
Proof.
  revert i. induction p as [|c p IH]; intros i H; simpl in *; [lia|].
  destruct i as [|i]; [now exists c|]. apply IH. lia.
Qed.

Lemma get_None_ge (p : string) (i : nat) :
  (String.length p <= i)%nat -> String.get i p = None.
Proof.
  revert i. induction p as [|c p IH]; intros i H; simpl in *; [reflexivity|].
  destruct i as [|i]; [lia|]. apply IH. lia.
Qed.

(** Without a separator the scan for the last component keeps the whole
    name once its last character is seen. *)
Lemma plainLoop_settled (p : string) (k : nat) (s : Scan) :
  noSlash p -> end_ s <> (-1)%Z -> plainLoop p k s = s.
Proof.
  intros Hp He. induction k as [|k IH]; simpl; [reflexivity|].
  unfold plainStep. rewrite (noSlash_charCodeAt p k Hp).
  apply Z.eqb_neq in He. now rewrite He.
Qed.

Lemma plainLoop_whole (p : string) (e : Z) :
  noSlash p -> p <> "" ->
  plainLoop p (String.length p) (mkScan 0 (-1) true e (-1))
  = mkScan 0 (len p) false e (-1).
Proof.
  intros Hp Hne. unfold len. destruct (String.length p) as [|k] eqn:L.
  - destruct p; [contradiction | discriminate].
  - cbn [plainLoop]. unfold plainStep.
    rewrite (noSlash_charCodeAt p k Hp). cbn [end_ start extIdx firstNonSlashEnd].
    simpl Z.eqb. cbv iota.
    rewrite plainLoop_settled; [|assumption | cbn [end_]; lia].
    f_equal. lia.
Qed.

Lemma basename_plain (p suf : string) :
  noSlash p ->
  ((0 <? len suf) && (len suf <=? len p))%Z%bool = false ->
  basename p suf = p.
Proof.
  intros Hp Hc. unfold basename. rewrite Hc.
  destruct (string_dec p "") as [-> | Hne]; [reflexivity|].
  rewrite (plainLoop_whole p _ Hp Hne). cbn [end_ start].
  assert (H : (len p =? -1)%Z = false) by (apply Z.eqb_neq; unfold len; lia).
  rewrite H. unfold slice, len.
  rewrite Z.sub_0_r, Nat2Z.id. simpl Z.to_nat. apply substring_full.
Qed.

(** While the end of [p] is compared with [suf] and a character among the
    [d] still to compare differs. *)
Lemma suffixLoop_mismatch (p suf : string) (r d : nat) :
  noSlash p ->
  String.length p = (String.length suf + r)%nat ->
  forall s : Scan,
  (1 <= d <= String.length suf)%nat ->
  start s = 0%Z -> end_ s = (-1)%Z -> extIdx s = (Z.of_nat d - 1)%Z ->
  (firstNonSlashEnd s = (-1)%Z /\ d = String.length suf \/
   firstNonSlashEnd s = len p /\ matchedSlash s = false) ->
  (exists t, (t < d)%nat /\
     charCodeAt p (Z.of_nat (t + r)) <> charCodeAt suf (Z.of_nat t)) ->
  suffixLoop p suf (d + r) s = mkScan 0 (len p) false (-1) (len p).
Proof.
  intros Hp Hlen. induction d as [|d IH]; intros s Hd Hst Hen Hex Hf Hdiff; [lia|].
  destruct s as [st en ms ei fn].
  cbn [start end_ extIdx firstNonSlashEnd matchedSlash] in Hst, Hen, Hex, Hf.
  subst st en.
  assert (Hei : ei = Z.of_nat d) by lia. clear Hex.
  change (S d + r)%nat with (S (d + r)).
  cbn [suffixLoop]. unfold suffixStep.
  rewrite (noSlash_charCodeAt _ (d + r) Hp).
  cbn [firstNonSlashEnd extIdx start end_ matchedSlash].
  assert (Hfn : (if (fn =? -1)%Z
                 then mkScan 0 (-1) false ei (Z.of_nat (d + r) + 1)
                 else mkScan 0 (-1) ms ei fn)
                = mkScan 0 (-1) false ei (len p)).
  { destruct Hf as [[-> Hds] | [-> ->]].
    - simpl Z.eqb. cbv iota. f_equal. unfold len. lia.
    - destruct (len p =? -1)%Z eqn:E; [|reflexivity].
      apply Z.eqb_eq in E. unfold len in E. lia. }
  rewrite Hfn. cbn [firstNonSlashEnd extIdx start end_ matchedSlash].
  subst ei.
  assert (H0 : (0 <=? Z.of_nat d)%Z = true) by (apply Z.leb_le; lia).
  rewrite H0.
  destruct (Ascii.eqb (charCodeAt p (Z.of_nat (d + r))) (charCodeAt suf (Z.of_nat d)))
    eqn:E.
  - apply Ascii.eqb_eq in E.
    destruct Hdiff as [t [Ht Hne]].
    assert (Htd : (t < d)%nat).
    { destruct (Nat.eq_dec t d) as [-> | Hn]; [contradiction | lia]. }
    assert (H1 : (Z.of_nat d - 1 =? -1)%Z = false) by (apply Z.eqb_neq; lia).
    rewrite H1.
    apply IH; cbn [start end_ extIdx firstNonSlashEnd matchedSlash];
      try lia; try reflexivity.
    now exists t.
  - rewrite (suffixLoop_settled _ _ _ _ Hp).
    + reflexivity.
    + cbn [firstNonSlashEnd]. unfold len. lia.
    + cbn [extIdx]. lia.
Qed.

(** A bounded search for a position where two strings differ. *)
Lemma differ_or_agree (p suf : string) (r d : nat) :
  (exists t, (t < d)%nat /\
     charCodeAt p (Z.of_nat (t + r)) <> charCodeAt suf (Z.of_nat t)) \/
  (forall t, (t < d)%nat ->
     charCodeAt p (Z.of_nat (t + r)) = charCodeAt suf (Z.of_nat t)).
Proof.
  induction d as [|d [[t [Ht Hne]] | Hall]].
  - right. intros t Ht. lia.
  - left. exists t. split; [lia | assumption].
  - destruct (ascii_dec (charCodeAt p (Z.of_nat (d + r))) (charCodeAt suf (Z.of_nat d)))
      as [E | Hne].
    + right. intros t Ht. destruct (Nat.eq_dec t d) as [-> | Hn]; [assumption|].
      apply Hall. lia.
    + left. exists d. split; [lia | assumption].
Qed.

Lemma agree_ends_with (p suf : string) (r : nat) :
  String.length p = (String.length suf + r)%nat ->
  (forall t, (t < String.length suf)%nat ->
     charCodeAt p (Z.of_nat (t + r)) = charCodeAt suf (Z.of_nat t)) ->
  p = (substring 0 r p ++ suf)%string.
Proof.
  intros Hlen Hall. apply get_correct. intros i.
  assert (Hr : String.length (substring 0 r p) = r) by (apply length_substring_0; lia).
  destruct (Nat.lt_ge_cases i r) as [Hlt | Hge].
  - rewrite <- append_correct1 by lia.
    rewrite substring_correct1 by assumption. now rewrite Nat.add_0_r.
  - replace i with ((i - r) + String.length (substring 0 r p))%nat at 2 by lia.
    rewrite <- append_correct2.
    destruct (Nat.lt_ge_cases (i - r) (String.length suf)) as [Hin | Hout].
    + specialize (Hall (i - r)%nat Hin). unfold charCodeAt in Hall.
      rewrite !Nat2Z.id in Hall. replace (i - r + r)%nat with i in Hall by lia.
      destruct (get_Some_lt p i) as [c Hc]; [lia|].
      destruct (get_Some_lt suf (i - r)) as [c' Hc']; [lia|].
      rewrite Hc, Hc' in Hall. now rewrite Hc, Hc', Hall.
    + rewrite !get_None_ge by lia. reflexivity.
Qed.

(** A directory entry that does not end with the suffix is kept whole. *)
Lemma basename_keeps_other (p suf : string) :
  noSlash p -> (forall n, p <> (n ++ suf)%string) ->
  basename p suf = p.
Proof.
  intros Hp Hno.
  destruct ((0 <? len suf) && (len suf <=? len p))%Z%bool eqn:Hc;
    [|now apply basename_plain].
  apply andb_true_iff in Hc. destruct Hc as [H1 H2].
  apply Z.ltb_lt in H1. apply Z.leb_le in H2. unfold len in H1, H2.
  set (r := (String.length p - String.length suf)%nat).
  assert (Hlen : String.length p = (String.length suf + r)%nat) by (unfold r; lia).
  destruct (differ_or_agree p suf r (String.length suf)) as [Hdiff | Hall].
  2:{ exfalso. apply (Hno (substring 0 r p)). now apply agree_ends_with. }
  unfold basename.
  assert (Hc : ((0 <? len suf) && (len suf <=? len p))%Z%bool = true).
  { apply andb_true_iff. unfold len. split; [apply Z.ltb_lt | apply Z.leb_le]; lia. }
  rewrite Hc.
  assert (Hne : String.eqb suf p = false).
  { apply String.eqb_neq. intros E. apply (Hno ""). now subst. }
  rewrite Hne, Hlen.
  rewrite (suffixLoop_mismatch p suf r (String.length suf) Hp Hlen);
    try reflexivity; try lia; try assumption; [|left; split; reflexivity].
  cbn [start end_ firstNonSlashEnd].
  assert (E1 : (0 =? len p)%Z = false) by (apply Z.eqb_neq; unfold len; lia).
  assert (E2 : (len p =? -1)%Z = false) by (apply Z.eqb_neq; unfold len; lia).
  rewrite E1, E2. unfold slice, len.
  rewrite Z.sub_0_r, Nat2Z.id. simpl Z.to_nat. apply substring_full.
Qed.

End Basename.

(** ** Facts about objects *)

Section ObjFacts.

Context {V : Type}.
Implicit Types (o : Obj.t V) (k : string) (v : V).

Lemma getOwn_In_keys o k :
  Obj.getOwn o k <> None <-> In k (map fst o).
Proof.
  induction o as [|[k' v'] o IH]; simpl.
  - split; [congruence | contradiction].
  - destruct (String.eqb k' k) eqn:E.
    + apply String.eqb_eq in E. split; [now left | discriminate].
    + apply String.eqb_neq in E. rewrite IH. split; [now right|].
      intros [H | H]; [contradiction | assumption].
Qed.

Lemma getOwn_Some_In o k v :
  Obj.getOwn o k = Some v -> In (k, v) o.
Proof.
  induction o as [|[k' v'] o IH]; simpl; [discriminate|].
  destruct (String.eqb k' k) eqn:E.
  - apply String.eqb_eq in E. intros [= ->]. left. now subst.
  - intros H. right. now apply IH.
Qed.

Lemma getOwn_set_same o k v :
  Obj.getOwn (Obj.set o k v) k = Some v.
Proof.
  induction o as [|[k' v'] o IH]; simpl.
  - now rewrite String.eqb_refl.
  - destruct (String.eqb k' k) eqn:E; simpl; now rewrite E.
Qed.

Lemma getOwn_set_other o k v k0 :
  k0 <> k -> Obj.getOwn (Obj.set o k v) k0 = Obj.getOwn o k0.
Proof.
  intros Hne. induction o as [|[k' v'] o IH]; simpl.
  - destruct (String.eqb k k0) eqn:E; [|reflexivity].
    apply String.eqb_eq in E. congruence.
  - destruct (String.eqb k' k) eqn:E; simpl.
    + destruct (String.eqb k' k0) eqn:E0; [|reflexivity].
      apply String.eqb_eq in E, E0. congruence.
    + now rewrite IH.
Qed.

(** Assigning to a property adds its key last when it is new, and leaves
    the keys as they are otherwise. *)
Lemma keys_set o k v :
  map fst (Obj.set o k v) = setAdd (map fst o) k.
Proof.
  unfold setAdd, array_includes.
  induction o as [|[k' v'] o IH]; simpl; [reflexivity|].
  rewrite (String.eqb_sym k k').
  destruct (String.eqb k' k) eqn:E; simpl; [reflexivity|].
  rewrite IH. destruct (existsb (String.eqb k) (map fst o)); reflexivity.
Qed.

Lemma Forall_set (P : string * V -> Prop) o k v :
  Forall P o -> P (k, v) -> Forall P (Obj.set o k v).
Proof.
  intros Ho Hk. induction Ho as [|[k' v'] o Hx Ho IH]; simpl.
  - constructor; [assumption | constructor].
  - destruct (String.eqb k' k) eqn:E.
    + apply String.eqb_eq in E. subst k'. now constructor.
    + now constructor.
Qed.

Lemma In_insertIndex n (e e0 : string * V) l :
  In e0 (map snd (Obj.insertIndex n e l)) <-> e0 = e \/ In e0 (map snd l).
Proof.
  induction l as [|[m e'] l IH]; simpl.
  - intuition congruence.
  - destruct (n <? m)%N; simpl; [intuition congruence|].
    rewrite IH. intuition congruence.
Qed.

Lemma insertIndex_ascending n (e : string * V) l :
  Sorted (fun x y => (fst x <= fst y)%N) l ->
  Sorted (fun x y => (fst x <= fst y)%N) (Obj.insertIndex n e l).
Proof.
  induction l as [|[m e'] l IH]; intros Hs; simpl.
  - repeat constructor.
  - destruct (n <? m)%N eqn:E.
    + apply N.ltb_lt in E. constructor; [assumption|]. constructor. simpl. lia.
    + apply N.ltb_ge in E. inversion Hs as [|? ? Hl Hd]; subst.
      constructor; [now apply IH|].
      destruct l as [|[m2 e2] l2]; simpl.
      * constructor. simpl. lia.
      * destruct (n <? m2)%N; constructor; simpl; [lia|].
        inversion Hd; subst. assumption.
Qed.

(** The array-index properties come in ascending order of their index. *)
Lemma indexEntries_ascending o :
  Sorted (fun x y => (fst x <= fst y)%N) (Obj.indexEntries o).
Proof.
  induction o as [|e o IH]; simpl; [constructor|].
  destruct (Obj.arrayIndex (fst e)); [now apply insertIndex_ascending | assumption].
Qed.

(** [Object.entries] lists the own properties, each once. *)
Lemma In_entries o (e : string * V) :
  In e (Obj.entries o) <-> In e o.
Proof.
  unfold Obj.entries, Obj.stringEntries. rewrite in_app_iff, filter_In.
  induction o as [|e' o IH]; simpl; [tauto|].
  destruct (Obj.arrayIndex (fst e')) as [n|] eqn:E.
  - rewrite In_insertIndex. split.
    + intros [[-> | H] | [[-> | H] Hn]].
      * now left.
      * right. apply IH. now left.
      * rewrite E in Hn. discriminate.
      * right. apply IH. now right.
    + intros [-> | H]; [left; now left|].
      apply IH in H. destruct H as [H | [H Hn]]; [left; now right|].
      right. split; [now right | assumption].
  - split.
    + intros [H | [[-> | H] Hn]].
      * right. apply IH. now left.
      * now left.
      * right. apply IH. now right.
    + intros [-> | H]; [right; split; [now left | now rewrite E]|].
      apply IH in H. destruct H as [H | [H Hn]]; [now left|].
      right. split; [now right | assumption].
Qed.

Lemma In_values o v :
  In v (Obj.values o) <-> exists k, In (k, v) o.
Proof.
  unfold Obj.values. rewrite in_map_iff. split.
  - intros [[k v'] [E H]]. simpl in E. subst v'. exists k. now apply In_entries.
  - intros [k H]. exists (k, v). split; [reflexivity | now apply In_entries].
Qed.

(** Without array-index keys, [Object.entries] follows creation order. *)
Lemma entries_creation_order o :
  (forall k, In k (map fst o) -> Obj.arrayIndex k = None) ->
  Obj.entries o = o.
Proof.
  intros H. unfold Obj.entries, Obj.stringEntries.
  assert (Hi : Obj.indexEntries o = []).
  { induction o as [|e o IH]; simpl; [reflexivity|].
    rewrite (H (fst e)) by now left.
    apply IH. intros k Hk. apply H. now right. }
  rewrite Hi. simpl. clear Hi.
  induction o as [|e o IH]; simpl; [reflexivity|].
  rewrite (H (fst e)) by now left.
  f_equal. apply IH. intros k Hk. apply H. now right.
Qed.

End ObjFacts.

Section MapValues.

Context {V W : Type}.
Variable f : V -> W.

Lemma insertIndex_map n (e : string * V) l :
  Obj.insertIndex n (Obj.onEntry f e)
    (map (fun x => (fst x, Obj.onEntry f (snd x))) l)
  = map (fun x => (fst x, Obj.onEntry f (snd x))) (Obj.insertIndex n e l).
Proof.
  induction l as [|[m e'] l IH]; simpl; [reflexivity|].
  destruct (n <? m)%N; simpl; [reflexivity|]. now rewrite IH.
Qed.

Lemma indexEntries_mapValues (o : Obj.t V) :
  Obj.indexEntries (Obj.mapValues f o)
  = map (fun x => (fst x, Obj.onEntry f (snd x))) (Obj.indexEntries o).
Proof.
  induction o as [|e o IH]; simpl; [reflexivity|].
  destruct (Obj.arrayIndex (fst e)); [|assumption].
  rewrite IH. apply insertIndex_map.
Qed.

Lemma entries_mapValues (o : Obj.t V) :
  Obj.entries (Obj.mapValues f o) = map (Obj.onEntry f) (Obj.entries o).
Proof.
  unfold Obj.entries. rewrite indexEntries_mapValues, map_app, !map_map.
  f_equal. unfold Obj.stringEntries, Obj.mapValues.
  induction o as [|e o IH]; simpl; [reflexivity|].
  destruct (Obj.arrayIndex (fst e)); simpl; [assumption | now rewrite IH].
Qed.

(** Changing every value in place keeps the order of [Object.values]. *)
Lemma values_mapValues (o : Obj.t V) :
  Obj.values (Obj.mapValues f o) = map f (Obj.values o).
Proof.
  unfold Obj.values. rewrite entries_mapValues, !map_map. reflexivity.
Qed.

Lemma keys_mapValues (o : Obj.t V) :
  Obj.keys (Obj.mapValues f o) = Obj.keys o.
Proof.
  unfold Obj.keys. rewrite entries_mapValues, map_map. reflexivity.
Qed.

End MapValues.

Lemma keys_ownKeyOrder {V : Type} (o : Obj.t V) :
  Obj.keys o = ownKeyOrder (map fst o).
Proof.
  unfold ownKeyOrder. rewrite <- (keys_mapValues (fun _ => tt) o).
  unfold Obj.mapValues, Obj.onEntry. now rewrite map_map.
Qed.

Lemma ownKeyOrder_creation_order (created : list string) :
  (forall k, In k created -> Obj.arrayIndex k = None) ->
  ownKeyOrder created = created.
Proof.
  intros H. unfold ownKeyOrder, Obj.keys. rewrite entries_creation_order.
  - rewrite map_map. simpl. apply map_id.
  - rewrite map_map. simpl. now rewrite map_id.
Qed.

(** ** Facts about [Set] insertion order *)

Section Unique.

Implicit Types (l acc : list string) (x a : string).

Lemma filter_twice (p q : string -> bool) l :
  filter p (filter q l) = filter (fun z => q z && p z) l.
Proof.
  induction l as [|z l IH]; simpl; [reflexivity|].
  destruct (q z); simpl; [destruct (p z)|]; now rewrite IH.
Qed.

Lemma filter_swap (p q : string -> bool) l :
  filter p (filter q l) = filter q (filter p l).
Proof.
  rewrite !filter_twice. apply filter_ext. intros z. apply andb_comm.
Qed.

Lemma filter_absorb (p : string -> bool) x l :
  p x = false ->
  filter p (filter (fun y => negb (String.eqb y x)) l) = filter p l.
Proof.
  intros Hx. rewrite filter_twice. apply filter_ext. intros z.
  destruct (String.eqb z x) eqn:E; simpl; [|reflexivity].
  apply String.eqb_eq in E. subst z. now rewrite Hx.
Qed.

Lemma firstOccurrences_filter (p : string -> bool) l :
  firstOccurrences (filter p l) = filter p (firstOccurrences l).
Proof.
  induction l as [|y l IH]; simpl; [reflexivity|].
  destruct (p y) eqn:E; simpl.
  - rewrite IH. f_equal. apply filter_swap.
  - rewrite IH. symmetry. now apply filter_absorb.
Qed.

Lemma fold_setAdd l : forall acc,
  fold_left setAdd l acc
  = acc ++ firstOccurrences (filter (fun x => negb (array_includes acc x)) l).
Proof.
  induction l as [|x r IH]; intros acc; simpl.
  - now rewrite app_nil_r.
  - unfold setAdd at 2. destruct (array_includes acc x) eqn:E; simpl.
    + apply IH.
    + rewrite IH, <- app_assoc. simpl. do 2 f_equal.
      rewrite <- firstOccurrences_filter, filter_twice. f_equal.
      apply filter_ext. intros z. unfold array_includes.
      rewrite existsb_app. simpl. rewrite orb_false_r, negb_orb. reflexivity.
Qed.

(** A [Set] built from an array lists its values in the order of their
    first occurrence. *)
Lemma unique_firstOccurrences l : unique l = firstOccurrences l.
Proof.
  unfold unique. rewrite fold_setAdd. simpl. f_equal.
  induction l as [|x r IH]; simpl; [reflexivity | now rewrite IH].
Qed.

Lemma In_firstOccurrences l x : In x (firstOccurrences l) <-> In x l.
Proof.
  induction l as [|y l IH]; simpl; [tauto|].
  rewrite filter_In, IH. destruct (String.eqb x y) eqn:E.
  - apply String.eqb_eq in E. subst. simpl. split; [|intros _]; now left.
  - apply String.eqb_neq in E. simpl. split.
    + intros [H | [H _]]; [now left | now right].
    + intros [H | H]; [congruence | right; now split].
Qed.

Lemma NoDup_firstOccurrences l : NoDup (firstOccurrences l).
Proof.
  induction l as [|y l IH]; simpl; constructor.
  - rewrite filter_In, String.eqb_refl. simpl. intros [_ H]. discriminate.
  - now apply NoDup_filter.
Qed.

Lemma In_fold_setAdd l acc x :
  In x (fold_left setAdd l acc) <-> In x acc \/ In x l.
Proof.
  rewrite fold_setAdd, in_app_iff, In_firstOccurrences, filter_In.
  split; [tauto|]. intros [H | H]; [now left|].
  destruct (array_includes acc x) eqn:E.
  - left. unfold array_includes in E. apply existsb_exists in E.
    destruct E as [y [Hy E]]. apply String.eqb_eq in E. now subst.
  - right. now split.
Qed.

Lemma NoDup_all_equal l a :
  NoDup l -> l <> [] -> (forall x, In x l -> x = a) -> l = [a].
Proof.
  intros Hnd Hne Hall. destruct l as [|x [|y r]]; [contradiction | |].
  - f_equal. apply Hall. now left.
  - exfalso. inversion Hnd as [|? ? Hx _]; subst. apply Hx.
    rewrite (Hall x) by now left.
    rewrite (Hall y) by (right; now left). now left.
Qed.

Lemma unique_uniform (m : Obj.t Address) a :
  uniform m a -> unique (Obj.values m) = [a].
Proof.
  intros [[k Hk] Hall]. rewrite unique_firstOccurrences.
  apply NoDup_all_equal.
  - apply NoDup_firstOccurrences.
  - intros E. assert (H : In a (firstOccurrences (Obj.values m))).
    { apply In_firstOccurrences, In_values. now exists k. }
    rewrite E in H. contradiction.
  - intros x Hx. apply In_firstOccurrences, In_values in Hx.
    destruct Hx as [k' Hx]. now apply (Hall k').
Qed.

Lemma unique_diverse (m : Obj.t Address) a :
  diverse m -> unique (Obj.values m) <> [a].
Proof.
  intros [k1 [a1 [k2 [a2 [H1 [H2 Hne]]]]]] E. apply Hne.
  assert (In1 : In a1 (unique (Obj.values m))).
  { rewrite unique_firstOccurrences. apply In_firstOccurrences, In_values. now exists k1. }
  assert (In2 : In a2 (unique (Obj.values m))).
  { rewrite unique_firstOccurrences. apply In_firstOccurrences, In_values. now exists k2. }
  rewrite E in In1, In2. simpl in In1, In2.
  destruct In1 as [<- | []]. destruct In2 as [<- | []]. reflexivity.
Qed.

End Unique.

(** ** The merger *)

Section Merger.

Context {Abi RegExp : Type}.
Variable test : RegExp -> string -> bool.
Implicit Types (config : HardhatDeployOptions RegExp)
               (acc : Obj.t (ContractConfig Abi))
               (ce : ContractExport Abi)
               (c : ContractConfig Abi).

Lemma foldM_app {A B : Type} (f : A -> B -> Result A) (l1 l2 : list B) (a : A) :
  foldM f (l1 ++ l2) a = bind (foldM f l1 a) (foldM f l2).
Proof.
  revert a. induction l1 as [|b l1 IH]; intros a; simpl; [reflexivity|].
  destruct (f a b); simpl; [apply IH | reflexivity].
Qed.

Lemma foldM_map {A B C : Type} (f : A -> B -> Result A) (g : C -> B) (l : list C) (a : A) :
  foldM f (map g l) a = foldM (fun a x => f a (g x)) l a.
Proof.
  revert a. induction l as [|x l IH]; intros a; simpl; [reflexivity|].
  destruct (f a (g x)); simpl; [apply IH | reflexivity].
Qed.

Lemma foldM_invariant {A B : Type} (P : A -> Prop) (f : A -> B -> Result A) (l : list B) :
  (forall a b a', P a -> f a b = Ok a' -> P a') ->
  forall a a', P a -> foldM f l a = Ok a' -> P a'.
Proof.
  intros Hf. induction l as [|b l IH]; intros a a' Ha; simpl.
  - intros [= <-]. assumption.
  - destruct (f a b) as [a1|e] eqn:E; simpl; [|discriminate].
    apply IH. now apply (Hf a b).
Qed.

(** A loop that meets an element on which the body always throws, throws. *)
Lemma foldM_fails {A B : Type} (f : A -> B -> Result A) (l : list B) (b : B) :
  In b l -> (forall a, exists e, f a b = Err e) ->
  forall a, exists e, foldM f l a = Err e.
Proof.
  intros Hin Hb. induction l as [|x l IH]; [contradiction|].
  intros a. simpl. destruct (f a x) as [a1|e] eqn:E; simpl.
  - destruct Hin as [-> | Hin].
    + destruct (Hb a) as [e He]. congruence.
    + now apply IH.
  - now exists e.
Qed.

Lemma mergeContract_Ok config chainId acc rawName ce acc' :
  mergeContract test config chainId acc (rawName, ce) = Ok acc' ->
  shouldInclude test rawName config = false /\ acc' = acc \/
  shouldInclude test rawName config = true /\
  exists c, acc' = Obj.set acc (contractName config rawName) c /\
    ((exists old m,
        Obj.getOwn acc (contractName config rawName) = Some old /\
        address old = PerChain m /\
        c = {| name := name old; abi := abi old;
               address := PerChain (Obj.set m (Num.toString chainId) (ce_address ce)) |}) \/
     (Obj.getOwn acc (contractName config rawName) = None /\
      c = {| name := contractName config rawName; abi := ce_abi ce;
             address := PerChain (Obj.set Obj.empty (Num.toString chainId) (ce_address ce)) |})).
Proof.
  unfold mergeContract, Obj.get. intros H.
  destruct (shouldInclude test rawName config);
    [|injection H as <-; now left].
  right. split; [reflexivity|].
  destruct (Obj.getOwn acc (contractName config rawName)) as [old|] eqn:G.
  - destruct (address old) as [a|m] eqn:A; [discriminate|].
    injection H as <-. eexists. split; [reflexivity|]. left. now exists old, m.
  - destruct (array_includes Obj.objectPrototypeKeys (contractName config rawName));
      [discriminate|].
    injection H as <-. eexists. split; [reflexivity|]. now right.
Qed.



Lemma mergeContract_wellFormed config chainId acc (r : string * ContractExport Abi) acc' :
  wellFormed acc ->
  mergeContract test config chainId acc r = Ok acc' ->
  wellFormed acc'.
Proof.
  intros Hw H. destruct r as [rawName ce].
  apply mergeContract_Ok in H.
  destruct H as [[_ ->] | [_ [c [-> Hc]]]]; [assumption|].
  apply Forall_set; [assumption|]. simpl.
  destruct Hc as [[old [m [G [A ->]]]] | [G ->]]; simpl.
  - split; [|eauto]. apply getOwn_Some_In in G.
    unfold wellFormed in Hw. rewrite Forall_forall in Hw.
    now destruct (Hw _ G).
  - split; [reflexivity | eauto].
Qed.

Lemma mergeFile_wellFormed config acc (file : string * FileContent Abi) acc' :
  wellFormed acc ->
  mergeFile test config acc file = Ok acc' ->
  wellFormed acc'.
Proof.
  unfold mergeFile. destruct (snd file) as [|d]; [discriminate|].
  intros Hw. apply foldM_invariant; [|assumption].
  intros a b a'. apply mergeContract_wellFormed.
Qed.

Lemma mergeFiles_wellFormed config (dir : Directory Abi) acc :
  mergeFiles test config dir = Ok acc -> wellFormed acc.
Proof.
  unfold mergeFiles. apply foldM_invariant; [|constructor].
  intros a b a'. apply mergeFile_wellFormed.
Qed.

(** The keys of the accumulator grow like a [Set] of the names met. *)
Lemma mergeEntries_keys config chainId (es : list (string * ContractExport Abi)) :
  forall acc acc',
  foldM (mergeContract test config chainId) es acc = Ok acc' ->
  map fst acc'
  = fold_left setAdd
      (map (contractName config)
           (filter (fun n => shouldInclude test n config) (map fst es)))
      (map fst acc).
Proof.
  induction es as [|[rawName ce] es IH]; intros acc acc'; simpl.
  - now intros [= <-].
  - destruct (mergeContract test config chainId acc (rawName, ce)) as [acc1|e] eqn:E;
      simpl; [|discriminate].
    intros H. rewrite (IH _ _ H). apply mergeContract_Ok in E.
    destruct E as [[Hs ->] | [Hs [c [-> _]]]]; rewrite Hs; simpl; [reflexivity|].
    now rewrite keys_set.
Qed.

Lemma mergeFile_keys config acc (file : string * FileContent Abi) acc' :
  mergeFile test config acc file = Ok acc' ->
  map fst acc' = fold_left setAdd (fileKeys test config file) (map fst acc).
Proof.
  unfold mergeFile, fileKeys. destruct (snd file) as [|d]; [discriminate|].
  apply mergeEntries_keys.
Qed.

Lemma mergeFiles_keys config (files : list (string * FileContent Abi)) :
  forall acc acc',
  foldM (mergeFile test config) files acc = Ok acc' ->
  map fst acc' = fold_left setAdd (flat_map (fileKeys test config) files) (map fst acc).
Proof.
  induction files as [|file files IH]; intros acc acc'; simpl.
  - now intros [= <-].
  - destruct (mergeFile test config acc file) as [acc1|e] eqn:E; simpl; [|discriminate].
    intros H. rewrite (IH _ _ H), fold_left_app. now rewrite (mergeFile_keys _ _ _ _ E).
Qed.

Lemma simplify_name c : name (simplify c) = name c.
Proof.
  unfold simplify.
  destruct (unique _) as [|a [|b r]]; reflexivity.
Qed.

Lemma simplify_abi c : abi (simplify c) = abi c.
Proof.
  unfold simplify.
  destruct (unique _) as [|a [|b r]]; reflexivity.
Qed.

(** Merging a record changes neither the name nor the abi of an entry
    that exists, and forgets no chain recorded in it. *)
Lemma mergeContract_keeps config chainId acc (r : string * ContractExport Abi) acc' k c m :
  mergeContract test config chainId acc r = Ok acc' ->
  Obj.getOwn acc k = Some c ->
  address c = PerChain m ->
  exists c' m',
    Obj.getOwn acc' k = Some c' /\ name c' = name c /\ abi c' = abi c /\
    address c' = PerChain m' /\
    forall ck, Obj.getOwn m ck <> None -> Obj.getOwn m' ck <> None.
Proof.
  intros H G A. destruct r as [rawName ce]. apply mergeContract_Ok in H.
  destruct H as [[_ ->] | [_ [c0 [-> Hc]]]]; [now exists c, m|].
  destruct (string_dec k (contractName config rawName)) as [-> | Hk].
  - rewrite getOwn_set_same.
    destruct Hc as [[old [m0 [G0 [A0 ->]]]] | [G0 _]]; [|congruence].
    assert (old = c) by congruence. subst old.
    assert (m0 = m) by congruence. subst m0.
    do 2 eexists. repeat split; try reflexivity.
    intros ck Hck. destruct (string_dec ck (Num.toString chainId)) as [-> | Hne].
    + rewrite getOwn_set_same. discriminate.
    + now rewrite getOwn_set_other.
  - rewrite getOwn_set_other by assumption. now exists c, m.
Qed.

Lemma mergeRecords_keeps config (records : list (Num.Number * (string * ContractExport Abi))) :
  forall acc acc' k c m,
  mergeRecords test config records acc = Ok acc' ->
  Obj.getOwn acc k = Some c ->
  address c = PerChain m ->
  exists c' m',
    Obj.getOwn acc' k = Some c' /\ name c' = name c /\ abi c' = abi c /\
    address c' = PerChain m' /\
    forall ck, Obj.getOwn m ck <> None -> Obj.getOwn m' ck <> None.
Proof.
  unfold mergeRecords.
  induction records as [|r records IH]; intros acc acc' k c m; simpl.
  - intros [= <-] G A. now exists c, m.
  - destruct (mergeContract test config (fst r) acc (snd r)) as [acc1|e] eqn:E;
      simpl; [|discriminate].
    intros H G A.
    destruct (mergeContract_keeps _ _ _ _ _ _ _ _ E G A)
      as [c1 [m1 [G1 [N1 [B1 [A1 K1]]]]]].
    destruct (IH _ _ _ _ _ H G1 A1) as [c2 [m2 [G2 [N2 [B2 [A2 K2]]]]]].
    exists c2, m2. repeat split; try congruence. auto.
Qed.

(** The reducer is a run of the loop body over the records of the file. *)
Lemma mergeFile_records config acc (file : string * FileContent Abi) :
  parses file ->
  mergeFile test config acc file = mergeRecords test config (fileRecords file) acc.
Proof.
  unfold parses, mergeFile, mergeRecords, fileRecords.
  destruct (snd file) as [message|d]; [contradiction|]. intros _.
  now rewrite foldM_map.
Qed.

Lemma mergeFiles_records config (files : list (string * FileContent Abi)) :
  Forall parses files ->
  forall acc,
  foldM (mergeFile test config) files acc
  = mergeRecords test config (flat_map fileRecords files) acc.
Proof.
  induction 1 as [|file files Hf _ IH]; intros acc; simpl; [reflexivity|].
  unfold mergeRecords in *. rewrite foldM_app, (mergeFile_records _ _ _ Hf).
  unfold mergeRecords.
  destruct (foldM _ (fileRecords file) acc); simpl; [apply IH | reflexivity].
Qed.

(** A file that parses never raises the error of the parser, whatever its
    [chainId] is. *)
Lemma mergeFile_no_SyntaxError config acc (f : string) (d : Export Abi) (message : string) :
  mergeFile test config acc (f, Document d) <> Err (SyntaxError message).
Proof.
  unfold mergeFile. simpl.
  generalize (Obj.entries (ex_contracts d)). intros es. revert acc.
  induction es as [|[rawName ce] es IH]; intros acc; simpl; [discriminate|].
  destruct (mergeContract test config (Num.parseInt (chainId d)) acc (rawName, ce))
    as [acc1|e] eqn:E; simpl; [apply IH|].
  unfold mergeContract, Obj.get in E.
  destruct (shouldInclude test rawName config); [|discriminate].
  destruct (Obj.getOwn acc (contractName config rawName)) as [old|].
  - destruct (address old); [|discriminate]. congruence.
  - destruct (array_includes Obj.objectPrototypeKeys (contractName config rawName));
      [congruence | discriminate].
Qed.

Lemma simplify_uniform c m a :
  address c = PerChain m -> uniform m a ->
  simplify c = {| name := name c; abi := abi c; address := Single a |}.
Proof.
  intros A U. unfold simplify. rewrite A. now rewrite (unique_uniform m a U).
Qed.

Lemma simplify_diverse c m :
  address c = PerChain m -> diverse m -> simplify c = c.
Proof.
  intros A D. unfold simplify. rewrite A.
  pose proof (fun a => unique_diverse m a D) as H.
  destruct (unique (Obj.values m)) as [|a [|b r]]; try reflexivity.
  now destruct (H a).
Qed.

(** C10: simplification keeps the keys of the accumulator and their
    order, and the entries before and after correspond one to one, in
    order, with the same name and the same abi. *)
Theorem simplify_changes_address_only acc :
  Obj.keys (Obj.mapValues simplify acc) = Obj.keys acc /\
  List.length (Obj.values (Obj.mapValues simplify acc)) = List.length (Obj.values acc) /\
  Forall2 (fun before after => name after = name before /\ abi after = abi before)
    (Obj.values acc) (Obj.values (Obj.mapValues simplify acc)).
Proof.
  rewrite keys_mapValues, values_mapValues, length_map.
  repeat split.
  induction (Obj.values acc) as [|c l IH]; simpl; constructor; [|assumption].
  split; [apply simplify_name | apply simplify_abi].
Qed.

Lemma names_are_keys acc :
  wellFormed acc ->
  map name (Obj.values (Obj.mapValues simplify acc)) = Obj.keys acc.
Proof.
  intros Hw. rewrite values_mapValues. unfold Obj.values, Obj.keys.
  rewrite !map_map. apply map_ext_in. intros e He.
  apply (proj1 (In_entries _ _)) in He.
  unfold wellFormed in Hw. rewrite Forall_forall in Hw.
  rewrite simplify_name. now destruct (Hw e He).
Qed.

(** C7 (amended): the names of the registry are the names met during the
    scan, listed as an object lists keys created in the order of their
    first occurrence: array indices first, in ascending order, then the
    other names in the order of their first occurrence. When none of the
    names met is an array index, this is the order of first occurrence
    itself. *)
Theorem registry_order_first_encounter config (dir : Directory Abi) reg :
  contracts test config dir = Ok reg ->
  map name reg = ownKeyOrder (firstOccurrences (encountered test config dir)) /\
  ((forall k, In k (encountered test config dir) -> Obj.arrayIndex k = None) ->
   map name reg = firstOccurrences (encountered test config dir)).
Proof.
  unfold contracts. destruct (mergeFiles test config dir) as [acc|e] eqn:E;
    simpl; [|discriminate].
  intros [= <-].
  pose proof (mergeFiles_wellFormed _ _ _ E) as Hw.
  assert (Hk : map fst acc = firstOccurrences (encountered test config dir)).
  { unfold mergeFiles in E. apply mergeFiles_keys in E. rewrite E.
    simpl. apply unique_firstOccurrences. }
  rewrite (names_are_keys acc Hw), keys_ownKeyOrder, Hk.
  split; [reflexivity|].
  intros Hidx. apply ownKeyOrder_creation_order.
  intros k Hin. apply Hidx. exact (proj1 (In_firstOccurrences _ k) Hin).
Qed.

End Merger.

(** ** The network name of a file *)

Section NetworkName.

Context {RegExp : Type}.

(** C8 (amended): the network name of a directory entry [n.json] is [n];
    a directory entry that does not end with [.json] is its own network
    name, whatever its extension; and the membership tests of
    [includeNetworks] and [excludeNetworks] are applied to the network name
    of the file. *)
Theorem networkName_strips_json (n f : string) (config : HardhatDeployOptions RegExp) :
  noSlash n ->
  networkName (n ++ ".json") = n /\
  (noSlash f -> (forall m, f <> (m ++ ".json")%string) -> networkName f = f) /\
  (shouldIncludeFile f config = false <->
   (exists l, includeNetworks config = Some l /\ l <> [] /\ ~ In (networkName f) l) \/
   (exists l, excludeNetworks config = Some l /\ l <> [] /\ In (networkName f) l)).
Proof.
  intros Hn. split; [|split; [|apply shouldIncludeFile_false_iff]].
  - unfold networkName. apply basename_strips_suffix; [|discriminate].
    apply noSlash_app; [assumption | apply noSlash_json].
  - intros Hf Hno. unfold networkName. now apply basename_keeps_other.
Qed.

End NetworkName.

(** ** The statements at the samples *)

Lemma noSlash_mainnet : noSlash "mainnet".
Proof.
  intros i. do 8 (destruct i as [|i]; [discriminate|]). discriminate.
Qed.

Lemma no_excludes_no_match (n : string) (inc : option (list string)) incNet excNet :
  ~ excludeMatch Sample.startsWith n (Sample.options inc None incNet excNet).
Proof.
  intros [l [E _]]. discriminate.
Qed.

Lemma shouldInclude_exclude_wins_witness :
  shouldInclude Sample.startsWith "TokenMock" Sample.tokensNoMocks = false.
Proof.
  apply shouldInclude_exclude_wins.
  exists ["TokenMock"]. split; [reflexivity|].
  exists "TokenMock". split; [now left | reflexivity].
Defined.

Lemma shouldInclude_includes_iff_witness :
  shouldInclude Sample.startsWith "TokenA" Sample.tokensNoMocks = true <->
  someMatch Sample.startsWith ["Token"] "TokenA".
Proof.
  apply shouldInclude_includes_iff.
  - intros [l [E [p [Hin Hp]]]]. injection E as <-.
    destruct Hin as [<- | []]. discriminate.
  - reflexivity.
  - discriminate.
Defined.

Lemma shouldInclude_no_includes_witness :
  (includes Sample.noFilter = None ->
   shouldInclude Sample.startsWith "Token" Sample.noFilter = true) /\
  (includes Sample.noFilter = Some [] ->
   shouldInclude Sample.startsWith "Token" Sample.noFilter = false).
Proof.
  apply shouldInclude_no_includes. apply no_excludes_no_match.
Defined.

(** C1, as stated, fails: with an includes list that is present and empty,
    and no exclude pattern, the name is rejected. *)
Lemma shouldInclude_empty_includes_rejects :
  ~ excludeMatch Sample.startsWith "Token" Sample.emptyIncludes /\
  absentOrEmpty (includes Sample.emptyIncludes) /\
  shouldInclude Sample.startsWith "Token" Sample.emptyIncludes = false.
Proof.
  split; [apply no_excludes_no_match|]. split; [now right | reflexivity].
Qed.

Lemma shouldIncludeFile_default_witness :
  shouldIncludeFile "mainnet.json" Sample.emptyNetworks = true.
Proof.
  apply shouldIncludeFile_default; [now right | now left].
Defined.

Lemma networkName_strips_json_witness :
  networkName ("mainnet" ++ ".json") = "mainnet" /\
  (noSlash "mainnet.txt" -> (forall m, "mainnet.txt" <> (m ++ ".json")%string) ->
   networkName "mainnet.txt" = "mainnet.txt") /\
  (shouldIncludeFile "mainnet.txt" Sample.onlyMainnet = false <->
   (exists l, includeNetworks Sample.onlyMainnet = Some l /\ l <> [] /\
              ~ In (networkName "mainnet.txt") l) \/
   (exists l, excludeNetworks Sample.onlyMainnet = Some l /\ l <> [] /\
              In (networkName "mainnet.txt") l)).
Proof.
  apply networkName_strips_json. exact noSlash_mainnet.
Defined.

(** C8, as stated, fails: the extension of [mainnet.txt] is not removed, so
    the file is not of the network [mainnet]. *)
Lemma networkName_keeps_other_extension :
  stripExtension "mainnet.txt" = "mainnet" /\
  networkName "mainnet.txt" = "mainnet.txt" /\
  array_includes ["mainnet"] (stripExtension "mainnet.txt") = true /\
  shouldIncludeFile "mainnet.txt" Sample.onlyMainnet = false.
Proof.
  repeat split.
Qed.

Lemma registry_order_first_encounter_witness :
  map name Sample.twoChainsRegistry
  = ownKeyOrder (firstOccurrences
                   (encountered Sample.startsWith Sample.noFilter Sample.twoChains)) /\
  ((forall k, In k (encountered Sample.startsWith Sample.noFilter Sample.twoChains) ->
      Obj.arrayIndex k = None) ->
   map name Sample.twoChainsRegistry
   = firstOccurrences (encountered Sample.startsWith Sample.noFilter Sample.twoChains)).
Proof.
  apply registry_order_first_encounter. reflexivity.
Defined.

(** C7, as stated, fails: the names ["2"] and ["1"] are met in this order
    and come out in the order ["1"], ["2"]. *)
Lemma registry_order_numeral_names :
  contracts Sample.startsWith Sample.noFilter Sample.numeralNames
  = Ok Sample.numeralNamesRegistry /\
  encountered Sample.startsWith Sample.noFilter Sample.numeralNames = ["2"; "1"] /\
  firstOccurrences (encountered Sample.startsWith Sample.noFilter Sample.numeralNames)
  = ["2"; "1"] /\
  map name Sample.numeralNamesRegistry = ["1"; "2"].
Proof.
  repeat split.
Qed.

(** ** Further properties of the selector *)

Section FurtherSelector.

Context {RegExp : Type}.
Variable test : RegExp -> string -> bool.
Implicit Types (n f : string) (config : HardhatDeployOptions RegExp).

Lemma existsb_same_elements (g : RegExp -> bool) (l1 l2 : list RegExp) :
  (forall p, In p l1 <-> In p l2) -> existsb g l1 = existsb g l2.
Proof.
  intros H. apply eq_true_iff_eq. rewrite !existsb_exists.
  split; intros [p [Hin Hp]]; exists p; split; try assumption; now apply H.
Qed.

(** The order of the patterns and their repetitions do not matter: two
    configurations with the same include patterns and the same exclude
    patterns accept the same names. *)
Theorem shouldInclude_same_patterns n config1 config2 :
  samePatterns (includes config1) (includes config2) ->
  samePatterns (excludes config1) (excludes config2) ->
  shouldInclude test n config1 = shouldInclude test n config2.
Proof.
  unfold shouldInclude, samePatterns. intros Hi He.
  destruct (excludes config1) as [e1|], (excludes config2) as [e2|];
    try contradiction;
    destruct (includes config1) as [i1|], (includes config2) as [i2|];
    try contradiction;
    rewrite ?(existsb_same_elements _ e1 e2 He), ?(existsb_same_elements _ i1 i2 Hi);
    reflexivity.
Qed.

(** A file whose network name is listed in [excludeNetworks] is rejected,
    whether [includeNetworks] lists it or not. *)
Theorem shouldIncludeFile_excluded_network f config (l : list string) :
  excludeNetworks config = Some l ->
  In (networkName f) l ->
  shouldIncludeFile f config = false.
Proof.
  intros E Hin. apply shouldIncludeFile_false_iff. right. exists l.
  repeat split; try assumption. intros ->. contradiction.
Qed.

Lemma append_cancel_l (s a b : string) :
  (s ++ a)%string = (s ++ b)%string -> a = b.
Proof.
  induction s as [|c s IH]; simpl; [trivial|]. intros [= H]. now apply IH.
Qed.

Lemma append_cancel_r (s : string) : forall a b : string,
  (a ++ s)%string = (b ++ s)%string -> a = b.
Proof.
  assert (Hlen : forall a b : string,
            (a ++ s)%string = (b ++ s)%string -> String.length a = String.length b).
  { intros a b H. apply (f_equal String.length) in H.
    rewrite !length_app in H. lia. }
  induction a as [|c a IH]; intros [|c' b] H.
  - reflexivity.
  - apply Hlen in H. discriminate.
  - apply Hlen in H. discriminate.
  - simpl in H. injection H as -> H. f_equal. now apply IH.
Qed.

(** Two different contract names never share a key of the registry, with
    any prefix and any suffix. *)
Theorem contractName_injective config n1 n2 :
  n1 <> n2 -> contractName config n1 <> contractName config n2.
Proof.
  intros Hne H. apply Hne. unfold contractName in H.
  apply append_cancel_l in H. now apply append_cancel_r in H.
Qed.

End FurtherSelector.

(** ** The two versions of the network name *)

Section Versions.

Context {RegExp : Type}.

Lemma noDot_tail (c : ascii) (s : string) : noDot (String c s) -> noDot s.
Proof.
  intros H i. exact (H (S i)).
Qed.

Lemma firstPart_json (n : string) :
  noDot n -> Legacy.firstPart (n ++ ".json") = n.
Proof.
  induction n as [|c n IH]; intros H; simpl; [reflexivity|].
  destruct (Ascii.eqb c ".") eqn:E.
  - apply Ascii.eqb_eq in E. subst c. now destruct (H 0%nat).
  - f_equal. apply IH. now apply noDot_tail in H.
Qed.

(** For a directory entry [n.json] whose name [n] has no dot, the first
    version and the current one select the same files, given the same
    network lists. *)
Theorem shouldIncludeFile_versions_agree (n : string)
    (old : Legacy.HardhatDeployOptions RegExp) (config : HardhatDeployOptions RegExp) :
  noDot n -> noSlash n ->
  Legacy.include_networks old = includeNetworks config ->
  Legacy.exclude_networks old = excludeNetworks config ->
  Legacy.shouldIncludeFile (n ++ ".json") old = shouldIncludeFile (n ++ ".json") config.
Proof.
  intros Hd Hs Hi He. unfold Legacy.shouldIncludeFile, shouldIncludeFile, networkName.
  rewrite (firstPart_json n Hd), Hi, He.
  rewrite (basename_strips_suffix n ".json"); [reflexivity | | discriminate].
  apply noSlash_app; [assumption | apply noSlash_json].
Qed.

End Versions.

(** ** Chain ids and their keys *)

Section ChainKeys.







End ChainKeys.

(** ** Further facts about objects *)

Section MoreObjFacts.

Context {V : Type}.
Implicit Types (o : Obj.t V) (k : string) (v : V).

Lemma In_set o k v k0 v0 :
  In (k, v) (Obj.set o k0 v0) -> (k, v) = (k0, v0) \/ In (k, v) o.
Proof.
  induction o as [|[k' v'] o IH]; simpl.
  - intros [H | []]. left. now symmetry.
  - destruct (String.eqb k' k0) eqn:E; simpl.
    + apply String.eqb_eq in E. subst k'.
      intros [H | H]; [left; now symmetry | right; now right].
    + intros [H | H]; [right; now left|].
      destruct (IH H) as [H' | H']; [now left | right; now right].
Qed.

Lemma set_nonempty o k v : Obj.set o k v <> [].
Proof.
  destruct o as [|[k' v'] o]; simpl; [discriminate|].
  destruct (String.eqb k' k); discriminate.
Qed.

Lemma In_setAdd (l : list string) (x y : string) :
  In y (setAdd l x) <-> In y l \/ y = x.
Proof.
  unfold setAdd. destruct (array_includes l x) eqn:E.
  - split; [now left|]. intros [H | ->]; [assumption|].
    now apply array_includes_In.
  - rewrite in_app_iff. simpl. intuition.
Qed.

Lemma NoDup_setAdd (l : list string) (x : string) :
  NoDup l -> NoDup (setAdd l x).
Proof.
  intros H. unfold setAdd. destruct (array_includes l x) eqn:E; [assumption|].
  apply NoDup_app; [assumption | repeat constructor; intros [] |].
  intros y Hy [<- | []]. apply array_includes_In in Hy. congruence.
Qed.

Lemma insertIndex_Permutation n (e : string * V) l :
  Permutation (map snd (Obj.insertIndex n e l)) (e :: map snd l).
Proof.
  induction l as [|[m e'] l IH]; simpl; [reflexivity|].
  destruct (n <? m)%N; simpl; [reflexivity|].
  rewrite IH. apply perm_swap.
Qed.

(** [Object.entries] rearranges the own properties and loses none. *)
Lemma entries_Permutation o : Permutation (Obj.entries o) o.
Proof.
  unfold Obj.entries, Obj.stringEntries.
  induction o as [|e o IH]; simpl; [reflexivity|].
  destruct (Obj.arrayIndex (fst e)); simpl.
  - rewrite insertIndex_Permutation. simpl. now constructor.
  - rewrite <- Permutation_middle. now constructor.
Qed.

Lemma NoDup_keys o : NoDup (map fst o) -> NoDup (Obj.keys o).
Proof.
  intros H. unfold Obj.keys.
  apply (Permutation_NoDup (l := map fst o)); [|assumption].
  apply Permutation_map. symmetry. apply entries_Permutation.
Qed.

Lemma In_keys o k : In k (Obj.keys o) <-> In k (map fst o).
Proof.
  unfold Obj.keys. split; apply Permutation_in, Permutation_map;
    [|symmetry]; apply entries_Permutation.
Qed.

End MoreObjFacts.

(** ** Further properties of the merger *)

Section FurtherMerger.

Context {Abi RegExp : Type}.
Variable test : RegExp -> string -> bool.
Implicit Types (config : HardhatDeployOptions RegExp)
               (acc : Obj.t (ContractConfig Abi))
               (ce : ContractExport Abi)
               (c : ContractConfig Abi)
               (dir : Directory Abi).

Lemma foldM_invariant_In {A B : Type} (P : A -> Prop) (f : A -> B -> Result A) (l : list B) :
  (forall a b a', In b l -> P a -> f a b = Ok a' -> P a') ->
  forall a a', P a -> foldM f l a = Ok a' -> P a'.
Proof.
  induction l as [|b l IH]; intros Hf a a' Ha; simpl.
  - intros [= <-]. assumption.
  - destruct (f a b) as [a1|e] eqn:E; simpl; [|discriminate].
    apply IH.
    + intros x y x' Hy. apply Hf. now right.
    + apply (Hf a b); [now left | assumption | assumption].
Qed.

Lemma mergeFiles_all_parse config (files : list (string * FileContent Abi)) :
  forall acc acc',
  foldM (mergeFile test config) files acc = Ok acc' ->
  Forall parses files.
Proof.
  induction files as [|file files IH]; intros acc acc'; simpl; [constructor|].
  destruct (mergeFile test config acc file) as [acc1|e] eqn:E; simpl; [|discriminate].
  intros H. constructor; [|now apply (IH _ _ H)].
  unfold mergeFile in E. unfold parses.
  destruct (snd file); [discriminate | exact I].
Qed.

(** The fold over the files is the run of the loop body over their
    records. *)
Lemma mergeFiles_as_records config dir acc :
  mergeFiles test config dir = Ok acc ->
  mergeRecords test config (selectedRecords config dir) Obj.empty = Ok acc.
Proof.
  intros H. unfold selectedRecords. rewrite <- mergeFiles_records; [exact H|].
  exact (mergeFiles_all_parse _ _ _ _ H).
Qed.

Lemma mergeRecords_split config
    (pre post : list (Num.Number * (string * ContractExport Abi))) r acc0 acc :
  mergeRecords test config (pre ++ r :: post) acc0 = Ok acc ->
  exists acc1 acc2,
    mergeRecords test config pre acc0 = Ok acc1 /\
    mergeContract test config (fst r) acc1 (snd r) = Ok acc2 /\
    mergeRecords test config post acc2 = Ok acc.
Proof.
  unfold mergeRecords. rewrite foldM_app.
  destruct (foldM _ pre acc0) as [acc1|e]; simpl; [|discriminate].
  destruct (mergeContract test config (fst r) acc1 (snd r)) as [acc2|e] eqn:E;
    simpl; [|discriminate].
  intros H. now exists acc1, acc2.
Qed.

Lemma contracts_Ok config dir reg :
  contracts test config dir = Ok reg ->
  exists acc, mergeFiles test config dir = Ok acc /\
              reg = map simplify (Obj.values acc).
Proof.
  unfold contracts. destruct (mergeFiles test config dir) as [acc|e]; simpl;
    [|discriminate].
  intros [= <-]. exists acc. split; [reflexivity | apply values_mapValues].
Qed.

Lemma In_registry acc key c :
  Obj.getOwn acc key = Some c -> In (simplify c) (map simplify (Obj.values acc)).
Proof.
  intros G. apply in_map, In_values. exists key. now apply getOwn_Some_In.
Qed.

(** *** What makes [contracts] throw *)

Lemma mergeContract_noInherited config chainId acc rawName ce acc' :
  noInherited acc ->
  mergeContract test config chainId acc (rawName, ce) = Ok acc' ->
  noInherited acc' /\
  (shouldInclude test rawName config = true ->
   array_includes Obj.objectPrototypeKeys (contractName config rawName) = false).
Proof.
  intros Hn. unfold mergeContract, Obj.get. intros H.
  destruct (shouldInclude test rawName config); [|injection H as <-; split; [assumption | discriminate]].
  assert (Hkey : array_includes Obj.objectPrototypeKeys (contractName config rawName) = false
                 /\ exists c0, acc' = Obj.set acc (contractName config rawName) c0).
  { destruct (Obj.getOwn acc (contractName config rawName)) as [old|] eqn:G.
    - destruct (address old); [discriminate|]. injection H as <-. split; [|eauto].
      apply Hn, getOwn_In_keys. congruence.
    - destruct (array_includes Obj.objectPrototypeKeys (contractName config rawName));
        [discriminate|].
      injection H as <-. split; [reflexivity | eauto]. }
  destruct Hkey as [Hk [c0 ->]]. split; [|now intros _].
  intros k Hin. rewrite keys_set in Hin. apply In_setAdd in Hin.
  destruct Hin as [Hin | ->]; [now apply Hn | assumption].
Qed.

Lemma mergeEntries_noInherited config chainId (es : list (string * ContractExport Abi)) :
  forall acc acc',
  noInherited acc ->
  foldM (mergeContract test config chainId) es acc = Ok acc' ->
  noInherited acc' /\
  forall k, In k (map (contractName config)
                    (filter (fun n => shouldInclude test n config) (map fst es))) ->
    array_includes Obj.objectPrototypeKeys k = false.
Proof.
  induction es as [|[rawName ce] es IH]; intros acc acc' Hn; simpl.
  - intros [= <-]. split; [assumption | contradiction].
  - destruct (mergeContract test config chainId acc (rawName, ce)) as [acc1|e] eqn:E;
      simpl; [|discriminate].
    intros H. destruct (mergeContract_noInherited _ _ _ _ _ _ Hn E) as [Hn1 Hk].
    destruct (IH _ _ Hn1 H) as [Hn' Hks]. split; [assumption|].
    destruct (shouldInclude test rawName config); [|assumption].
    simpl. intros k [<- | Hin]; [now apply Hk | now apply Hks].
Qed.

Lemma mergeFiles_noInherited config (files : list (string * FileContent Abi)) :
  forall acc acc',
  noInherited acc ->
  foldM (mergeFile test config) files acc = Ok acc' ->
  noInherited acc' /\
  forall k, In k (flat_map (fileKeys test config) files) ->
    array_includes Obj.objectPrototypeKeys k = false.
Proof.
  induction files as [|file files IH]; intros acc acc' Hn; simpl.
  - intros [= <-]. split; [assumption | contradiction].
  - destruct (mergeFile test config acc file) as [acc1|e] eqn:E; simpl; [|discriminate].
    intros H. unfold mergeFile in E. unfold fileKeys at 1.
    destruct (snd file) as [|d]; [discriminate|].
    destruct (mergeEntries_noInherited _ _ _ _ _ Hn E) as [Hn1 Hk].
    destruct (IH _ _ Hn1 H) as [Hn' Hks]. split; [assumption|].
    intros k Hin. apply in_app_iff in Hin. destruct Hin; [now apply Hk | now apply Hks].
Qed.

Lemma mergeContract_succeeds config chainId acc rawName ce :
  wellFormed acc ->
  (shouldInclude test rawName config = true ->
   array_includes Obj.objectPrototypeKeys (contractName config rawName) = false) ->
  exists acc', mergeContract test config chainId acc (rawName, ce) = Ok acc'.
Proof.
  intros Hw Hk. unfold mergeContract, Obj.get.
  destruct (shouldInclude test rawName config); [|eauto].
  destruct (Obj.getOwn acc (contractName config rawName)) as [old|] eqn:G.
  - apply getOwn_Some_In in G. unfold wellFormed in Hw. rewrite Forall_forall in Hw.
    destruct (Hw _ G) as [_ [m A]]. simpl in A. rewrite A. eauto.
  - rewrite Hk by reflexivity. eauto.
Qed.

Lemma mergeEntries_succeed config chainId (es : list (string * ContractExport Abi)) :
  forall acc,
  wellFormed acc ->
  (forall k, In k (map (contractName config)
                     (filter (fun n => shouldInclude test n config) (map fst es))) ->
     array_includes Obj.objectPrototypeKeys k = false) ->
  exists acc', foldM (mergeContract test config chainId) es acc = Ok acc'.
Proof.
  induction es as [|[rawName ce] es IH]; intros acc Hw Hk; simpl; [eauto|].
  simpl in Hk.
  destruct (mergeContract_succeeds config chainId acc rawName ce Hw) as [acc1 E].
  { intros Hs. apply Hk. rewrite Hs. now left. }
  rewrite E. simpl. apply IH.
  - exact (mergeContract_wellFormed test _ _ _ _ _ Hw E).
  - intros k Hin. apply Hk.
    destruct (shouldInclude test rawName config); [now right | assumption].
Qed.

Lemma mergeFiles_succeed config (files : list (string * FileContent Abi)) :
  forall acc,
  wellFormed acc ->
  Forall parses files ->
  (forall k, In k (flat_map (fileKeys test config) files) ->
     array_includes Obj.objectPrototypeKeys k = false) ->
  exists acc', foldM (mergeFile test config) files acc = Ok acc'.
Proof.
  induction files as [|file files IH]; intros acc Hw Hp Hk; simpl; [eauto|].
  inversion Hp as [|? ? Hf Hfs]; subst. simpl in Hk.
  assert (E : exists acc1, mergeFile test config acc file = Ok acc1).
  { unfold mergeFile. unfold fileKeys in Hk at 1. unfold parses in Hf.
    destruct (snd file) as [message|d]; [contradiction|].
    apply mergeEntries_succeed; [assumption|].
    intros k Hin. apply Hk, in_app_iff. now left. }
  destruct E as [acc1 E]. rewrite E. simpl. apply IH.
  - exact (mergeFile_wellFormed test _ _ _ _ Hw E).
  - assumption.
  - intros k Hin. apply Hk, in_app_iff. now right.
Qed.

Lemma contracts_Ok_iff config dir :
  (exists reg, contracts test config dir = Ok reg) <->
  (forall f message, In (f, Malformed message) dir -> shouldIncludeFile f config = false) /\
  (forall k, In k (encountered test config dir) ->
     array_includes Obj.objectPrototypeKeys k = false).
Proof.
  split.
  - intros [reg H]. apply contracts_Ok in H. destruct H as [acc [H _]].
    unfold mergeFiles in H. split.
    + intros f message Hin. destruct (shouldIncludeFile f config) eqn:S; [|reflexivity].
      exfalso. pose proof (mergeFiles_all_parse _ _ _ _ H) as Hp.
      rewrite Forall_forall in Hp. apply (Hp (f, Malformed message)).
      unfold selectedFiles. apply filter_In. now split.
    + apply (mergeFiles_noInherited _ _ _ _ (fun k (Hk : In k (map fst Obj.empty)) =>
                                               match Hk with end) H).
  - intros [Hp Hk].
    destruct (mergeFiles_succeed config (selectedFiles config dir) Obj.empty)
      as [acc E].
    + constructor.
    + apply Forall_forall. intros [f content] Hin. unfold parses. simpl.
      destruct content as [message|d]; [|exact I].
      unfold selectedFiles in Hin. apply filter_In in Hin. destruct Hin as [Hin S].
      simpl in S. rewrite (Hp f message Hin) in S. discriminate.
    + exact Hk.
    + eexists. unfold contracts, mergeFiles. rewrite E. reflexivity.
Qed.

(** [contracts] returns a registry only when every selected file parses
    and no transformed name of a contract that passes the name filter is a
    name of [Object.prototype]. *)
Theorem contracts_returns_only_if config dir reg :
  contracts test config dir = Ok reg ->
  (forall f message, In (f, Malformed message) dir -> shouldIncludeFile f config = false) /\
  (forall k, In k (encountered test config dir) ->
     array_includes Obj.objectPrototypeKeys k = false).
Proof.
  intros H. apply contracts_Ok_iff. now exists reg.
Qed.


(** A file that the network lists reject has no effect, whatever it holds. *)
Theorem contracts_ignores_rejected_file config (dir1 dir2 : Directory Abi)
    (f : string) (content : FileContent Abi) :
  shouldIncludeFile f config = false ->
  contracts test config (dir1 ++ (f, content) :: dir2)
  = contracts test config (dir1 ++ dir2).
Proof.
  intros H. unfold contracts, mergeFiles, selectedFiles.
  rewrite !filter_app. simpl. now rewrite H.
Qed.

End FurtherMerger.

(** ** What the registry holds *)

Section RegistryContents.

Context {Abi RegExp : Type}.
Variable test : RegExp -> string -> bool.
Implicit Types (config : HardhatDeployOptions RegExp)
               (acc : Obj.t (ContractConfig Abi))
               (ce : ContractExport Abi)
               (c : ContractConfig Abi)
               (dir : Directory Abi).

(** *** Names *)

Lemma In_encountered config dir k :
  In k (encountered test config dir) <->
  exists ck a, deployedAt test config dir k ck a.
Proof.
  unfold encountered, deployedAt. rewrite in_flat_map. split.
  - intros [[f content] [Hsel Hk]]. unfold selectedFiles in Hsel.
    apply filter_In in Hsel. destruct Hsel as [Hin S]. simpl in S.
    unfold fileKeys in Hk. simpl in Hk. destruct content as [|d]; [contradiction|].
    apply in_map_iff in Hk. destruct Hk as [rawName [<- Hraw]].
    apply filter_In in Hraw. destruct Hraw as [Hraw Hs].
    unfold Obj.keys in Hraw. apply in_map_iff in Hraw.
    destruct Hraw as [[rawName' ce] [E He]]. simpl in E. subst rawName'.
    apply (proj1 (In_entries _ _)) in He.
    exists (Num.toString (Num.parseInt (chainId d))), (ce_address ce), f, d, rawName, ce.
    repeat split; assumption.
  - intros [ck [a [f [d [rawName [ce [Hin [S [He [Hs [<- _]]]]]]]]]]].
    exists (f, Document d). split.
    + unfold selectedFiles. apply filter_In. now split.
    + unfold fileKeys. simpl. apply in_map, filter_In. split; [|assumption].
      unfold Obj.keys. apply in_map_iff. exists (rawName, ce).
      split; [reflexivity | now apply In_entries].
Qed.

Lemma mergeFiles_keys_encountered config dir acc :
  mergeFiles test config dir = Ok acc ->
  map fst acc = firstOccurrences (encountered test config dir).
Proof.
  intros E. unfold mergeFiles in E. apply mergeFiles_keys in E. rewrite E.
  simpl. apply unique_firstOccurrences.
Qed.

(** The names of the registry are the transformed names of the contracts
    that pass the name filter in the selected files, each listed once. *)
Theorem registry_names config dir reg :
  contracts test config dir = Ok reg ->
  NoDup (map name reg) /\
  forall k, In k (map name reg) <-> exists ck a, deployedAt test config dir k ck a.
Proof.
  intros H. apply contracts_Ok in H. destruct H as [acc [H ->]].
  pose proof (mergeFiles_wellFormed _ _ _ _ H) as Hw.
  pose proof (mergeFiles_keys_encountered _ _ _ H) as Hk.
  rewrite <- values_mapValues, (names_are_keys acc Hw). split.
  - apply NoDup_keys. rewrite Hk. apply NoDup_firstOccurrences.
  - intros k. rewrite In_keys, Hk, In_firstOccurrences. apply In_encountered.
Qed.

(** *** Addresses *)

Lemma mergeContract_populated config chainId acc
    (r : string * ContractExport Abi) acc' :
  populated acc ->
  mergeContract test config chainId acc r = Ok acc' ->
  populated acc'.
Proof.
  intros Hp H. destruct r as [rawName ce]. apply mergeContract_Ok in H.
  destruct H as [[_ ->] | [_ [c0 [-> Hc]]]]; [assumption|].
  apply Forall_set; [assumption|]. cbn [snd]. intros m A.
  assert (Hset : forall m0 : Obj.t Address, NoDup (map fst m0) ->
            m = Obj.set m0 (Num.toString chainId) (ce_address ce) ->
            m <> [] /\ NoDup (map fst m)).
  { intros m0 Hn ->. split; [apply set_nonempty|].
    rewrite keys_set. now apply NoDup_setAdd. }
  destruct Hc as [[old [m0 [G [A0 ->]]]] | [G ->]]; cbn [address] in A.
  - apply (Hset m0); [|congruence].
    apply getOwn_Some_In in G. unfold populated in Hp. rewrite Forall_forall in Hp.
    now destruct (Hp _ G _ A0).
  - apply (Hset Obj.empty); [constructor | congruence].
Qed.

Lemma mergeFiles_populated config dir acc :
  mergeFiles test config dir = Ok acc -> populated acc.
Proof.
  unfold mergeFiles. apply foldM_invariant; [|constructor].
  intros a file a' Ha. unfold mergeFile. destruct (snd file) as [|d]; [discriminate|].
  apply foldM_invariant; [|assumption].
  intros b e b'. apply mergeContract_populated.
Qed.

Lemma In_unique (l : list string) (x : string) : In x (unique l) <-> In x l.
Proof.
  rewrite unique_firstOccurrences. apply In_firstOccurrences.
Qed.

(** Every entry of the registry has one address, or a record of addresses
    that holds two different addresses and each chain key once. *)
Theorem registry_address_shape config dir reg :
  contracts test config dir = Ok reg ->
  forall c, In c reg ->
    (exists a, address c = Single a) \/
    (exists m, address c = PerChain m /\ diverse m /\ NoDup (map fst m)).
Proof.
  intros H c Hc. apply contracts_Ok in H. destruct H as [acc [H ->]].
  apply in_map_iff in Hc. destruct Hc as [c0 [<- Hc0]].
  apply In_values in Hc0. destruct Hc0 as [key Hin].
  pose proof (mergeFiles_wellFormed _ _ _ _ H) as Hw.
  pose proof (mergeFiles_populated _ _ _ H) as Hp.
  unfold wellFormed in Hw. unfold populated in Hp. rewrite Forall_forall in Hw, Hp.
  destruct (Hw _ Hin) as [_ [m A]]. simpl in A.
  destruct (Hp _ Hin m A) as [Hne Hnd].
  unfold simplify. rewrite A.
  destruct (unique (Obj.values m)) as [|x [|y r]] eqn:U.
  - exfalso. destruct m as [|[k1 a1] m]; [contradiction|].
    assert (Hx : In a1 (unique (Obj.values ((k1, a1) :: m)))).
    { apply In_unique, In_values. exists k1. now left. }
    rewrite U in Hx. contradiction.
  - left. now exists x.
  - right. exists m. split; [assumption|]. split; [|assumption].
    assert (Hx : In x (Obj.values m)) by (apply In_unique; rewrite U; now left).
    assert (Hy : In y (Obj.values m)) by (apply In_unique; rewrite U; right; now left).
    apply In_values in Hx, Hy. destruct Hx as [k1 Hx]. destruct Hy as [k2 Hy].
    exists k1, x, k2, y. repeat split; try assumption.
    intros ->. pose proof (NoDup_firstOccurrences (Obj.values m)) as Hn.
    rewrite <- unique_firstOccurrences, U in Hn.
    inversion Hn as [|? ? Hnot _]; subst. apply Hnot. now left.
Qed.

Lemma mergeContract_deployed config dir (f : string) (d : Export Abi) acc
    (e : string * ContractExport Abi) acc' :
  In (f, Document d) dir ->
  shouldIncludeFile f config = true ->
  In e (ex_contracts d) ->
  (forall key c m ck a, In (key, c) acc -> address c = PerChain m -> In (ck, a) m ->
     deployedAt test config dir key ck a) ->
  mergeContract test config (Num.parseInt (chainId d)) acc e = Ok acc' ->
  (forall key c m ck a, In (key, c) acc' -> address c = PerChain m -> In (ck, a) m ->
     deployedAt test config dir key ck a).
Proof.
  intros Hin S He HP H. destruct e as [rawName ce]. apply mergeContract_Ok in H.
  destruct H as [[_ ->] | [Hs [c0 [-> Hc]]]]; [assumption|].
  intros key c m ck a Hkc A Hm.
  apply In_set in Hkc. destruct Hkc as [[= -> ->] | Hkc]; [|now apply (HP key c m)].
  assert (Hnew : deployedAt test config dir (contractName config rawName)
                   (Num.toString (Num.parseInt (chainId d))) (ce_address ce)).
  { exists f, d, rawName, ce. repeat split; assumption. }
  assert (Hset : forall m0 : Obj.t Address,
            m = Obj.set m0 (Num.toString (Num.parseInt (chainId d))) (ce_address ce) ->
            (In (ck, a) m0 ->
             deployedAt test config dir (contractName config rawName) ck a) ->
            deployedAt test config dir (contractName config rawName) ck a).
  { intros m0 -> Hold. apply In_set in Hm.
    destruct Hm as [[= -> ->] | Hm]; [assumption | now apply Hold]. }
  destruct Hc as [[old [m0 [G [A0 ->]]]] | [G ->]]; cbn [address] in A.
  - apply (Hset m0); [congruence|]. intros Hm0.
    apply getOwn_Some_In in G. now apply (HP _ old m0).
  - apply (Hset Obj.empty); [congruence | intros []].
Qed.

Lemma mergeFiles_deployed config dir acc :
  mergeFiles test config dir = Ok acc ->
  forall key c m ck a, In (key, c) acc -> address c = PerChain m -> In (ck, a) m ->
    deployedAt test config dir key ck a.
Proof.
  unfold mergeFiles.
  pose (P := fun acc0 : Obj.t (ContractConfig Abi) =>
               forall key c m ck a, In (key, c) acc0 -> address c = PerChain m ->
                 In (ck, a) m -> deployedAt test config dir key ck a).
  apply (foldM_invariant_In P).
  - intros a [f content] a' Hsel HP. unfold selectedFiles in Hsel.
    apply filter_In in Hsel. destruct Hsel as [Hin S]. simpl in S.
    unfold mergeFile. simpl. destruct content as [|d]; [discriminate|].
    apply (foldM_invariant_In P); [|assumption].
    intros b e b' He Hb Hstep.
    exact (mergeContract_deployed config dir f d b e b' Hin S
             (proj1 (In_entries _ _) He) Hb Hstep).
  - intros key c m ck a [].
Qed.

(** Every address of the registry is the address of a contract of that
    name in a selected file, on the chain key of that file: no address is
    made up. *)
Theorem registry_addresses_deployed config dir reg :
  contracts test config dir = Ok reg ->
  forall c, In c reg ->
    (forall a, address c = Single a ->
       exists ck, deployedAt test config dir (name c) ck a) /\
    (forall m ck a, address c = PerChain m -> In (ck, a) m ->
       deployedAt test config dir (name c) ck a).
Proof.
  intros H c Hc. apply contracts_Ok in H. destruct H as [acc [H ->]].
  apply in_map_iff in Hc. destruct Hc as [c0 [<- Hc0]].
  apply In_values in Hc0. destruct Hc0 as [key Hin].
  pose proof (mergeFiles_wellFormed _ _ _ _ H) as Hw.
  unfold wellFormed in Hw. rewrite Forall_forall in Hw.
  destruct (Hw _ Hin) as [Hname [m0 A0]]. simpl in Hname, A0.
  pose proof (mergeFiles_deployed _ _ _ H key c0 m0) as HD.
  rewrite simplify_name, Hname. unfold simplify. rewrite A0.
  destruct (unique (Obj.values m0)) as [|x [|y r]] eqn:U; simpl; split;
    try (intros a E; rewrite A0 in E; discriminate);
    try (intros m ck a E Hm; rewrite A0 in E; injection E as <-; now apply HD).
  - intros a [= <-].
    assert (Hx : In x (Obj.values m0)) by (apply In_unique; rewrite U; now left).
    apply In_values in Hx. destruct Hx as [ck Hx]. exists ck. now apply HD.
  - intros m ck a E. discriminate.
Qed.

(** *** Precedence over the whole run *)

Lemma mergeContract_untouched config chainId acc
    (r : string * ContractExport Abi) acc' key ck c m a :
  mergeContract test config chainId acc r = Ok acc' ->
  ~ writes test config key ck (chainId, r) ->
  Obj.getOwn acc key = Some c -> address c = PerChain m ->
  Obj.getOwn m ck = Some a ->
  exists c' m',
    Obj.getOwn acc' key = Some c' /\ address c' = PerChain m' /\
    Obj.getOwn m' ck = Some a.
Proof.
  intros H Hw G A Ga. destruct r as [rawName ce]. apply mergeContract_Ok in H.
  destruct H as [[_ ->] | [Hs [c0 [-> Hc]]]]; [now exists c, m|].
  destruct (string_dec key (contractName config rawName)) as [-> | Hk].
  - rewrite getOwn_set_same.
    destruct Hc as [[old [m0 [G0 [A0 ->]]]] | [G0 _]]; [|congruence].
    assert (old = c) by congruence. subst old.
    assert (m0 = m) by congruence. subst m0.
    do 2 eexists. split; [reflexivity|]. split; [reflexivity|].
    rewrite getOwn_set_other; [assumption|].
    intros ->. apply Hw. repeat split; assumption.
  - rewrite getOwn_set_other by assumption. now exists c, m.
Qed.

Lemma mergeRecords_untouched config
    (records : list (Num.Number * (string * ContractExport Abi))) key ck :
  forall acc acc' c m a,
  mergeRecords test config records acc = Ok acc' ->
  (forall r, In r records -> ~ writes test config key ck r) ->
  Obj.getOwn acc key = Some c -> address c = PerChain m ->
  Obj.getOwn m ck = Some a ->
  exists c' m',
    Obj.getOwn acc' key = Some c' /\ address c' = PerChain m' /\
    Obj.getOwn m' ck = Some a.
Proof.
  unfold mergeRecords.
  induction records as [|r records IH]; intros acc acc' c m a; simpl.
  - intros [= <-] _ G A Ga. now exists c, m.
  - destruct (mergeContract test config (fst r) acc (snd r)) as [acc1|e] eqn:E;
      simpl; [|discriminate].
    intros H Hw G A Ga.
    assert (Hnw : ~ writes test config key ck (fst r, snd r)).
    { destruct r as [ch e0]. apply Hw. now left. }
    destruct (mergeContract_untouched config (fst r) acc (snd r) acc1 key ck c m a
                E Hnw G A Ga) as [c1 [m1 [G1 [A1 Ga1]]]].
    apply (IH acc1 acc' c1 m1 a H); try assumption.
    intros r' Hr'. apply Hw. now right.
Qed.

(** Over the whole run the last record of a contract on a chain decides
    the address: the registry entry of that name has this address, as its
    one address or under the key of the chain. *)
Theorem last_record_decides_address config dir reg
    (pre post : list (Num.Number * (string * ContractExport Abi)))
    (chainId : Num.Number) (rawName : string) ce :
  contracts test config dir = Ok reg ->
  selectedRecords config dir = pre ++ (chainId, (rawName, ce)) :: post ->
  shouldInclude test rawName config = true ->
  (forall r, In r post ->
     ~ writes test config (contractName config rawName) (Num.toString chainId) r) ->
  exists c, In c reg /\ name c = contractName config rawName /\
    (address c = Single (ce_address ce) \/
     exists m, address c = PerChain m /\
               Obj.getOwn m (Num.toString chainId) = Some (ce_address ce)).
Proof.
  intros H Hsplit Hs Hpost. apply contracts_Ok in H. destruct H as [acc [H ->]].
  pose proof (mergeFiles_wellFormed _ _ _ _ H) as Hw.
  apply mergeFiles_as_records in H. rewrite Hsplit in H.
  apply mergeRecords_split in H. destruct H as [acc1 [acc2 [_ [Hstep Hrest]]]].
  simpl in Hstep. apply mergeContract_Ok in Hstep.
  destruct Hstep as [[Hs' _] | [_ [c0 [-> Hc]]]]; [congruence|].
  assert (Hc0 : exists m0, address c0 = PerChain m0 /\
                  Obj.getOwn m0 (Num.toString chainId) = Some (ce_address ce)).
  { destruct Hc as [[old [m0 [_ [_ ->]]]] | [_ ->]]; eexists;
      (split; [reflexivity | apply getOwn_set_same]). }
  destruct Hc0 as [m0 [A0 G0]].
  destruct (mergeRecords_untouched _ _ _ _ _ _ _ _ _ Hrest Hpost
              (getOwn_set_same _ _ _) A0 G0) as [c [m [G [A Ga]]]].
  exists (simplify c). split; [now apply (In_registry _ (contractName config rawName))|].
  rewrite simplify_name. split.
  - apply getOwn_Some_In in G. unfold wellFormed in Hw. rewrite Forall_forall in Hw.
    now destruct (Hw _ G).
  - unfold simplify. rewrite A.
    destruct (unique (Obj.values m)) as [|x [|y r]] eqn:U; simpl;
      try (right; exists m; now split).
    left. f_equal.
    assert (Hx : In (ce_address ce) (unique (Obj.values m))).
    { apply In_unique, In_values. exists (Num.toString chainId).
      now apply getOwn_Some_In. }
    rewrite U in Hx. destruct Hx as [-> | []]. reflexivity.
Qed.

Lemma mergeRecords_new_keys config
    (records : list (Num.Number * (string * ContractExport Abi))) :
  forall acc acc' k,
  mergeRecords test config records acc = Ok acc' ->
  In k (map fst acc') ->
  In k (map fst acc) \/ exists r, In r records /\ mergedUnder test config k r.
Proof.
  unfold mergeRecords.
  induction records as [|[ch [rawName ce]] records IH]; intros acc acc' k; simpl.
  - intros [= <-] Hk. now left.
  - destruct (mergeContract test config ch acc (rawName, ce)) as [acc1|e] eqn:E;
      simpl; [|discriminate].
    intros H Hk. destruct (IH _ _ _ H Hk) as [Hin | [r [Hr Hm]]].
    + apply mergeContract_Ok in E.
      destruct E as [[_ ->] | [Hs [c0 [-> _]]]]; [now left|].
      rewrite keys_set in Hin. apply In_setAdd in Hin.
      destruct Hin as [Hin | ->]; [now left|].
      right. exists (ch, (rawName, ce)). split; [now left|]. now split.
    + right. exists r. split; [now right | assumption].
Qed.

(** Over the whole run the first record of a contract decides the abi of
    its registry entry. *)
Theorem first_record_decides_abi config dir reg
    (pre post : list (Num.Number * (string * ContractExport Abi)))
    (chainId : Num.Number) (rawName : string) ce :
  contracts test config dir = Ok reg ->
  selectedRecords config dir = pre ++ (chainId, (rawName, ce)) :: post ->
  shouldInclude test rawName config = true ->
  (forall r, In r pre -> ~ mergedUnder test config (contractName config rawName) r) ->
  exists c, In c reg /\ name c = contractName config rawName /\ abi c = ce_abi ce.
Proof.
  intros H Hsplit Hs Hpre. apply contracts_Ok in H. destruct H as [acc [H ->]].
  apply mergeFiles_as_records in H. rewrite Hsplit in H.
  apply mergeRecords_split in H. destruct H as [acc1 [acc2 [Hbefore [Hstep Hrest]]]].
  simpl in Hstep. apply mergeContract_Ok in Hstep.
  destruct Hstep as [[Hs' _] | [_ [c0 [-> Hc]]]]; [congruence|].
  destruct Hc as [[old [m0 [G0 _]]] | [_ ->]].
  - exfalso.
    assert (Hin : In (contractName config rawName) (map fst acc1)).
    { apply getOwn_In_keys. congruence. }
    destruct (mergeRecords_new_keys _ _ _ _ _ Hbefore Hin) as [[] | [r [Hr Hm]]].
    now apply (Hpre r).
  - destruct (mergeRecords_keeps test config post _ _ (contractName config rawName) _ _
                Hrest (getOwn_set_same _ _ _) eq_refl)
      as [c [m [G [N [B _]]]]].
    exists (simplify c). split; [now apply (In_registry _ (contractName config rawName))|].
    rewrite simplify_name, simplify_abi. now split.
Qed.

End RegistryContents.

(** ** The further statements at the samples *)

Lemma noDot_mainnet : noDot "mainnet".
Proof.
  intros i. do 8 (destruct i as [|i]; [discriminate|]). discriminate.
Qed.

Lemma shouldInclude_same_patterns_witness :
  shouldInclude Sample.startsWith "TokenA" Cases.tokens
  = shouldInclude Sample.startsWith "TokenA" Cases.tokensReordered.
Proof.
  apply shouldInclude_same_patterns; simpl; intros p; simpl; tauto.
Defined.

Lemma shouldIncludeFile_excluded_network_witness :
  shouldIncludeFile "polygon.json" Cases.bothNetworks = false.
Proof.
  apply (shouldIncludeFile_excluded_network "polygon.json" Cases.bothNetworks ["polygon"]).
  - reflexivity.
  - now left.
Defined.

Lemma contractName_injective_witness :
  contractName Cases.prefixed "Foo" <> contractName Cases.prefixed "Bar".
Proof.
  apply contractName_injective. discriminate.
Defined.

Lemma shouldIncludeFile_versions_agree_witness :
  Legacy.shouldIncludeFile ("mainnet" ++ ".json") Cases.legacyMainnet
  = shouldIncludeFile ("mainnet" ++ ".json") Sample.onlyMainnet.
Proof.
  apply shouldIncludeFile_versions_agree.
  - exact noDot_mainnet.
  - exact noSlash_mainnet.
  - reflexivity.
  - reflexivity.
Defined.

Lemma contracts_ignores_rejected_file_witness :
  contracts Sample.startsWith Sample.onlyMainnet Cases.brokenElsewhere
  = contracts Sample.startsWith Sample.onlyMainnet
      ([Sample.file "mainnet.json" "1" [("Foo", Sample.deployed "0xAA" "fooAbi")]] ++ []).
Proof.
  apply (contracts_ignores_rejected_file Sample.startsWith Sample.onlyMainnet
           [Sample.file "mainnet.json" "1" [("Foo", Sample.deployed "0xAA" "fooAbi")]]
           [] "polygon.json" (Malformed "Unexpected end of JSON input")).
  reflexivity.
Defined.

Lemma registry_names_witness :
  NoDup (map name Sample.twoChainsRegistry) /\
  forall k, In k (map name Sample.twoChainsRegistry) <->
    exists ck a, deployedAt Sample.startsWith Sample.noFilter Sample.twoChains k ck a.
Proof.
  apply registry_names. reflexivity.
Defined.

Lemma registry_address_shape_witness :
  (exists a,
     address {| name := "Bar"; abi := "barAbi";
                address := PerChain [("1", "0xAA"); ("137", "0xBB")] |} = Single a) \/
  (exists m,
     address {| name := "Bar"; abi := "barAbi";
                address := PerChain [("1", "0xAA"); ("137", "0xBB")] |} = PerChain m /\
     diverse m /\ NoDup (map fst m)).
Proof.
  apply (registry_address_shape Sample.startsWith Sample.noFilter Sample.twoChains
           Sample.twoChainsRegistry).
  - reflexivity.
  - right. now left.
Defined.

Lemma registry_addresses_deployed_witness :
  (forall a,
     address {| name := "Foo"; abi := "fooAbi"; address := Single "0xAA" |} = Single a ->
     exists ck, deployedAt Sample.startsWith Sample.noFilter Sample.twoChains
                  (name {| name := "Foo"; abi := "fooAbi"; address := Single "0xAA" |})
                  ck a) /\
  (forall m ck a,
     address {| name := "Foo"; abi := "fooAbi"; address := Single "0xAA" |} = PerChain m ->
     In (ck, a) m ->
     deployedAt Sample.startsWith Sample.noFilter Sample.twoChains
       (name {| name := "Foo"; abi := "fooAbi"; address := Single "0xAA" |}) ck a).
Proof.
  apply (registry_addresses_deployed Sample.startsWith Sample.noFilter Sample.twoChains
           Sample.twoChainsRegistry).
  - reflexivity.
  - now left.
Defined.

Lemma last_record_decides_address_witness :
  exists c, In c Sample.twoChainsRegistry /\
    name c = contractName Sample.noFilter "Bar" /\
    (address c = Single (ce_address (Sample.deployed "0xAA" "barAbi")) \/
     exists m, address c = PerChain m /\
       Obj.getOwn m (Num.toString (Num.Int 1))
       = Some (ce_address (Sample.deployed "0xAA" "barAbi"))).
Proof.
  apply (last_record_decides_address Sample.startsWith Sample.noFilter Sample.twoChains
           Sample.twoChainsRegistry
           [(Num.Int 1, ("Foo", Sample.deployed "0xAA" "fooAbi"))]
           [(Num.Int 137, ("Foo", Sample.deployed "0xAA" "fooAbi2"));
            (Num.Int 137, ("Bar", Sample.deployed "0xBB" "barAbi2"))]).
  - reflexivity.
  - reflexivity.
  - reflexivity.
  - intros r [<- | [<- | []]] [[_ Hk] Hc]; discriminate.
Defined.

Lemma first_record_decides_abi_witness :
  exists c, In c Sample.twoChainsRegistry /\
    name c = contractName Sample.noFilter "Bar" /\
    abi c = ce_abi (Sample.deployed "0xAA" "barAbi").
Proof.
  apply (first_record_decides_abi Sample.startsWith Sample.noFilter Sample.twoChains
           Sample.twoChainsRegistry
           [(Num.Int 1, ("Foo", Sample.deployed "0xAA" "fooAbi"))]
           [(Num.Int 137, ("Foo", Sample.deployed "0xAA" "fooAbi2"));
            (Num.Int 137, ("Bar", Sample.deployed "0xBB" "barAbi2"))]
           (Num.Int 1)).
  - reflexivity.
  - reflexivity.
  - reflexivity.
  - intros r [<- | []] [_ Hk]. discriminate.
Defined.

(** ** Failure, simplification and precedence *)

Section MergerRevisited.

Context {Abi RegExp : Type}.
Variable test : RegExp -> string -> bool.
Implicit Types (config : HardhatDeployOptions RegExp)
               (acc : Obj.t (ContractConfig Abi))
               (ce : ContractExport Abi)
               (c : ContractConfig Abi)
               (dir : Directory Abi).

(** A loop stops at the first element on which its body throws. *)
Lemma foldM_stops {A B : Type} (f : A -> B -> Result A) (pre post : list B)
    (b : B) (e : Error) (a : A) :
  (forall a1, f a1 b = Err e) ->
  foldM f (pre ++ b :: post) a
  = match foldM f pre a with
    | Ok _ => Err e
    | Err e' => Err e'
    end.
Proof.
  intros Hb. rewrite foldM_app. destruct (foldM f pre a) as [a1|e']; simpl;
    [now rewrite Hb | reflexivity].
Qed.

Lemma selectedFiles_app config (dir1 dir2 : Directory Abi) :
  selectedFiles config (dir1 ++ dir2)
  = selectedFiles config dir1 ++ selectedFiles config dir2.
Proof.
  unfold selectedFiles. apply filter_app.
Qed.

Lemma contracts_malformed config (pre post : Directory Abi) (f message : string) :
  shouldIncludeFile f config = true ->
  contracts test config (pre ++ (f, Malformed message) :: post)
  = match mergeFiles test config pre with
    | Ok _ => Err (SyntaxError message)
    | Err e => Err e
    end.
Proof.
  intros S. unfold contracts, mergeFiles.
  rewrite selectedFiles_app. unfold selectedFiles at 2. simpl. rewrite S.
  rewrite (foldM_stops _ _ _ (f, Malformed message) (SyntaxError message));
    [|reflexivity].
  now destruct (foldM _ (selectedFiles config pre) Obj.empty).
Qed.

Lemma encountered_withChainId config (before after : Directory Abi)
    (g s : string) (d : Export Abi) :
  encountered test config (before ++ (g, Document (withChainId s d)) :: after)
  = encountered test config (before ++ (g, Document d) :: after).
Proof.
  unfold encountered. rewrite !selectedFiles_app, !flat_map_app.
  f_equal. unfold selectedFiles. simpl.
  destruct (shouldIncludeFile g config); reflexivity.
Qed.

(** The [chainId] of a file has no part in whether [contracts] returns. *)
Lemma contracts_withChainId config (before after : Directory Abi)
    (g s : string) (d : Export Abi) :
  (exists reg, contracts test config (before ++ (g, Document d) :: after) = Ok reg) ->
  exists reg, contracts test config
                (before ++ (g, Document (withChainId s d)) :: after) = Ok reg.
Proof.
  intros H. apply contracts_Ok_iff in H. destruct H as [Hp Hk].
  apply contracts_Ok_iff. split.
  - intros f message Hin. apply (Hp f message).
    apply in_app_iff in Hin. apply in_app_iff.
    destruct Hin as [Hin | [Hin | Hin]]; [now left | discriminate | right; now right].
  - intros k Hin. apply Hk. now rewrite encountered_withChainId in Hin.
Qed.

(** C2 (amended): when a selected file does not parse, [contracts] throws
    and returns no registry. The error is the one [JSON.parse] throws for
    that file, as it is, when the files before it were merged, and the
    error of those files when they threw; it is the same for any other
    selected file name and whatever follows the file. A file that parses
    never raises the parser's error, and putting any string as the
    [chainId] of a file never turns a run that returns into one that
    throws. *)
Theorem contracts_malformed_fails config (pre post : Directory Abi) (f message : string) :
  shouldIncludeFile f config = true ->
  contracts test config (pre ++ (f, Malformed message) :: post)
  = match mergeFiles test config pre with
    | Ok _ => Err (SyntaxError message)
    | Err e => Err e
    end /\
  (forall (g : string) (post' : Directory Abi),
     shouldIncludeFile g config = true ->
     contracts test config (pre ++ (g, Malformed message) :: post')
     = contracts test config (pre ++ (f, Malformed message) :: post)) /\
  (forall acc (g : string) (d : Export Abi) (message' : string),
     mergeFile test config acc (g, Document d) <> Err (SyntaxError message')) /\
  (forall (before after : Directory Abi) (g s : string) (d : Export Abi),
     (exists reg, contracts test config (before ++ (g, Document d) :: after) = Ok reg) ->
     exists reg, contracts test config
                   (before ++ (g, Document (withChainId s d)) :: after) = Ok reg).
Proof.
  intros S. split; [now apply contracts_malformed|]. split; [|split].
  - intros g post' Sg. now rewrite !contracts_malformed.
  - intros acc g d message'. apply mergeFile_no_SyntaxError.
  - intros before after g s d. apply contracts_withChainId.
Qed.

Lemma length_values {V : Type} (o : Obj.t V) :
  List.length (Obj.values o) = List.length o.
Proof.
  unfold Obj.values. rewrite length_map.
  apply Permutation_length, entries_Permutation.
Qed.

(** C3: once the files are folded into [acc], the registry holds one entry
    for every entry of [acc] and nothing else, each entry of [acc]
    simplified on its own: an entry whose recorded chains all have one
    address [a] gets the address [a], and an entry with two different
    recorded addresses keeps its record of addresses by chain id. *)
Theorem contracts_simplifies_each_entry config dir acc :
  mergeFiles test config dir = Ok acc ->
  exists reg,
    contracts test config dir = Ok reg /\
    List.length reg = List.length acc /\
    (forall c', In c' reg -> exists k c, In (k, c) acc /\ c' = simplify c) /\
    forall k c, In (k, c) acc ->
      In (simplify c) reg /\
      exists m, address c = PerChain m /\
        (forall a, uniform m a -> address (simplify c) = Single a) /\
        (diverse m -> address (simplify c) = PerChain m).
Proof.
  intros H. exists (map simplify (Obj.values acc)). split; [|split; [|split]].
  - unfold contracts. rewrite H. simpl. now rewrite values_mapValues.
  - rewrite length_map. apply length_values.
  - intros c' Hc'. apply in_map_iff in Hc'. destruct Hc' as [c [<- Hc]].
    apply In_values in Hc. destruct Hc as [k Hk]. now exists k, c.
  - intros k c Hk. split.
    + apply in_map, In_values. now exists k.
    + pose proof (mergeFiles_wellFormed _ _ _ _ H) as Hw.
      unfold wellFormed in Hw. rewrite Forall_forall in Hw.
      destruct (Hw _ Hk) as [_ [m A]]. simpl in A.
      exists m. split; [assumption|]. split.
      * intros a U. now rewrite (simplify_uniform c m a A U).
      * intros D. now rewrite (simplify_diverse c m A D).
Qed.



End MergerRevisited.

(** ** The statements on failure, simplification and precedence at the samples *)

Lemma contracts_malformed_fails_witness :
  contracts Sample.startsWith Sample.noFilter
    ([Sample.file "mainnet.json" "1" [("Foo", Sample.deployed "0xAA" "fooAbi")]]
       ++ ("broken.json", Malformed "Unexpected end of JSON input") :: [])
  = match mergeFiles Sample.startsWith Sample.noFilter
            [Sample.file "mainnet.json" "1" [("Foo", Sample.deployed "0xAA" "fooAbi")]] with
    | Ok _ => Err (SyntaxError "Unexpected end of JSON input")
    | Err e => Err e
    end /\
  (forall (g : string) (post' : Directory string),
     shouldIncludeFile g Sample.noFilter = true ->
     contracts Sample.startsWith Sample.noFilter
       ([Sample.file "mainnet.json" "1" [("Foo", Sample.deployed "0xAA" "fooAbi")]]
          ++ (g, Malformed "Unexpected end of JSON input") :: post')
     = contracts Sample.startsWith Sample.noFilter
         ([Sample.file "mainnet.json" "1" [("Foo", Sample.deployed "0xAA" "fooAbi")]]
            ++ ("broken.json", Malformed "Unexpected end of JSON input") :: [])) /\
  (forall acc (g : string) (d : Export string) (message' : string),
     mergeFile Sample.startsWith Sample.noFilter acc (g, Document d)
     <> Err (SyntaxError message')) /\
  (forall (before after : Directory string) (g s : string) (d : Export string),
     (exists reg, contracts Sample.startsWith Sample.noFilter
                    (before ++ (g, Document d) :: after) = Ok reg) ->
     exists reg, contracts Sample.startsWith Sample.noFilter
                   (before ++ (g, Document (withChainId s d)) :: after) = Ok reg).
Proof.
  apply contracts_malformed_fails. reflexivity.
Defined.

(** C2, as stated, fails: a [chainId] that is not a numeral raises nothing,
    the address is recorded under the key [NaN] and the registry is
    returned; and two files of different names with the same text that
    does not parse raise the same error, which is the parser's. *)
Lemma contracts_accepts_bad_chainId :
  Num.parseInt "abc" = Num.NaN /\
  mergeFiles Sample.startsWith Sample.noFilter Sample.badChainId
  = Ok [("Foo", {| name := "Foo"; abi := "fooAbi"; address := PerChain [("NaN", "0xAA")] |})] /\
  contracts Sample.startsWith Sample.noFilter Sample.badChainId
  = Ok [{| name := "Foo"; abi := "fooAbi"; address := Single "0xAA" |}] /\
  contracts Sample.startsWith Sample.noFilter
    [("a.json", @Malformed string "Unexpected end of JSON input")]
  = Err (SyntaxError "Unexpected end of JSON input") /\
  contracts Sample.startsWith Sample.noFilter
    [("b.json", @Malformed string "Unexpected end of JSON input")]
  = Err (SyntaxError "Unexpected end of JSON input").
Proof.
  repeat split.
Qed.

Lemma contracts_simplifies_each_entry_witness :
  exists reg,
    contracts Sample.startsWith Sample.noFilter Sample.twoChains = Ok reg /\
    List.length reg = List.length Sample.twoChainsMerged /\
    (forall c', In c' reg ->
       exists k c, In (k, c) Sample.twoChainsMerged /\ c' = simplify c) /\
    forall k c, In (k, c) Sample.twoChainsMerged ->
      In (simplify c) reg /\
      exists m, address c = PerChain m /\
        (forall a, uniform m a -> address (simplify c) = Single a) /\
        (diverse m -> address (simplify c) = PerChain m).
Proof.
  apply contracts_simplifies_each_entry. reflexivity.
Defined.


Lemma contracts_returns_only_if_witness :
  (forall f message, In (f, Malformed message) Sample.twoChains ->
     shouldIncludeFile f Sample.noFilter = false) /\
  (forall k, In k (encountered Sample.startsWith Sample.noFilter Sample.twoChains) ->
     array_includes Obj.objectPrototypeKeys k = false).
Proof.
  apply (contracts_returns_only_if Sample.startsWith Sample.noFilter Sample.twoChains
           Sample.twoChainsRegistry).
  reflexivity.
Defined.


